(** * npstat: grouped non-parametric tests over a pandas data frame

    A shallow embedding of [src/npstat.py] ([mann_whitney_test],
    [kruskal_wallis_test], [anova] and their [highlight_significant]
    helper) together with the properties of the result tables they build.

    Python floats are IEEE binary64 numbers: they are modelled by Rocq's
    primitive floats, so that [val < 0.05] is the comparison the program
    performs (false on NaN).  Python dictionaries keep insertion order and
    are modelled by association lists without duplicate keys.  The three
    scipy routines are not part of the program: they are parameters of the
    development. *)

From Stdlib Require Import String List Bool Arith ZArith Lia Floats Permutation.
Import ListNotations.

#[local] Set Warnings "-inexact-float".

Local Open Scope string_scope.
Local Open Scope list_scope.

(** ** Keys with a decidable equality *)

Class EqKey (K : Type) := {
  key_eqb : K -> K -> bool;
  key_eqb_spec : forall a b : K, reflect (a = b) (key_eqb a b)
}.

#[export] Instance string_EqKey : EqKey string :=
  {| key_eqb := String.eqb; key_eqb_spec := String.eqb_spec |}.

Definition pair_eqb {A B : Type} `{EqKey A} `{EqKey B} (p q : A * B) : bool :=
  key_eqb (fst p) (fst q) && key_eqb (snd p) (snd q).

#[export] Instance pair_EqKey {A B : Type} `{EqKey A} `{EqKey B} : EqKey (A * B).
Proof.
  refine {| key_eqb := pair_eqb |}.
  intros [a b] [a' b']. unfold pair_eqb. simpl.
  destruct (key_eqb_spec a a'); destruct (key_eqb_spec b b'); simpl;
    constructor; congruence.
Defined.

(** ** Python dictionaries

    Insertion ordered; assigning to a key that is present keeps its
    position and replaces its value. *)

Abbreviation dict K V := (list (K * V)) (only parsing).

Section Dict.
Context {K V : Type} `{EqKey K}.

Fixpoint dict_get (k : K) (d : dict K V) : option V :=
  match d with
  | [] => None
  | (k', v) :: d' => if key_eqb k k' then Some v else dict_get k d'
  end.

Fixpoint dict_set (k : K) (v : V) (d : dict K V) : dict K V :=
  match d with
  | [] => [(k, v)]
  | (k', v') :: d' =>
      if key_eqb k k' then (k', v) :: d' else (k', v') :: dict_set k v d'
  end.

Definition dict_has (k : K) (d : dict K V) : bool :=
  match dict_get k d with Some _ => true | None => false end.

(** [d.get(k, default)] *)
Definition dict_get_or (k : K) (default : V) (d : dict K V) : V :=
  match dict_get k d with Some v => v | None => default end.

Definition dict_keys (d : dict K V) : list K := map fst d.
End Dict.

(** The keys a dictionary has after the elements of [l] were assigned to it
    in turn: [l] without the repetitions of an earlier element. *)
Definition add_key {K : Type} `{EqKey K} (acc : list K) (k : K) : list K :=
  if existsb (key_eqb k) acc then acc else acc ++ [k].

Definition distinct {K : Type} `{EqKey K} (l : list K) : list K :=
  fold_left add_key l [].

(** ** Values, exceptions and results *)

(** A cell of the data set: a label or a number; a missing cell is the
    float NaN. *)
Inductive value : Type :=
| Str (s : string)
| Num (x : float).

Definition is_nan (x : float) : bool := negb (PrimFloat.eqb x x).

(** Elementwise [==]: IEEE equality on numbers, so NaN equals nothing. *)
Definition value_eqb (a b : value) : bool :=
  match a, b with
  | Str s, Str t => String.eqb s t
  | Num x, Num y => PrimFloat.eqb x y
  | _, _ => false
  end.

(** Equality of the hash table behind [unique()]: all NaN are one key. *)
Definition same_key (a b : value) : bool :=
  match a, b with
  | Str s, Str t => String.eqb s t
  | Num x, Num y => PrimFloat.eqb x y || (is_nan x && is_nan y)
  | _, _ => false
  end.

Inductive exn : Type :=
| KeyError (key : string)
| ScipyError (msg : string).

Inductive res (A : Type) : Type :=
| Ok (a : A)
| Raise (e : exn).

Arguments Ok {A} a.
Arguments Raise {A} e.

(** ** The pandas operations the program uses *)

Definition Series := list value.

(** The input data frame: column label to column, all of one length. *)
Definition DataFrame := dict string Series.

(** [df[col]] *)
Definition getitem (df : DataFrame) (col : string) : res Series :=
  match dict_get col df with
  | Some s => Ok s
  | None => Raise (KeyError col)
  end.

(** [s.unique()]: the distinct values in order of first appearance. *)
Fixpoint unique_from (seen : list value) (s : Series) : list value :=
  match s with
  | [] => seen
  | x :: s' =>
      if existsb (same_key x) seen then unique_from seen s'
      else unique_from (seen ++ [x]) s'
  end.

Definition unique (s : Series) : list value := unique_from [] s.

(** [s == category] *)
Definition eq_mask (s : Series) (category : value) : list bool :=
  map (fun x => value_eqb x category) s.

(** Boolean indexing of one column. *)
Fixpoint take (mask : list bool) (s : Series) : Series :=
  match mask, s with
  | b :: mask', x :: s' => if b then x :: take mask' s' else take mask' s'
  | _, _ => []
  end.

(** [df[mask]]: a new frame with the selected rows. *)
Definition loc_mask (df : DataFrame) (mask : list bool) : DataFrame :=
  map (fun c => (fst c, take mask (snd c))) df.

(** ** The program's effects

    The caller's data frame is the only object the program shares with its
    caller; a computation takes its current content and returns the content
    it leaves, with a value or the exception raised. *)

Definition M (A : Type) : Type := DataFrame -> DataFrame * res A.

Definition ret {A : Type} (a : A) : M A := fun df => (df, Ok a).

Definition raise {A : Type} (e : exn) : M A := fun df => (df, Raise e).

Definition bind {A B : Type} (m : M A) (f : A -> M B) : M B :=
  fun df =>
    match m df with
    | (df', Ok a) => f a df'
    | (df', Raise e) => (df', Raise e)
    end.

Definition lift {A : Type} (r : res A) : M A := fun df => (df, r).

Declare Scope npstat_scope.
Delimit Scope npstat_scope with npstat.
Notation "x <- m ;; k" := (bind m (fun x => k))
  (at level 61, m at next level, right associativity) : npstat_scope.
Local Open Scope npstat_scope.

(** [df[col]] on the caller's frame. *)
Definition df_getitem (col : string) : M Series :=
  fun df => (df, getitem df col).

(** [df[mask]] on the caller's frame. *)
Definition df_loc (mask : list bool) : M DataFrame :=
  fun df => (df, Ok (loc_mask df mask)).

(** A [for] loop over a list whose body updates the local variables [s]. *)
Fixpoint for_ {A S : Type} (l : list A) (body : A -> S -> M S) (s : S) : M S :=
  match l with
  | [] => ret s
  | x :: l' => s' <- body x s ;; for_ l' body s'
  end.

(** The value a computation returns and the frame it leaves. *)
Definition run {A : Type} (m : M A) (df : DataFrame) : res A := snd (m df).
Definition frame_after {A : Type} (m : M A) (df : DataFrame) : DataFrame := fst (m df).

(** [[f x for x in l]] *)
Fixpoint map_M {A B : Type} (f : A -> M B) (l : list A) : M (list B) :=
  match l with
  | [] => ret []
  | x :: l' => y <- f x ;; ys <- map_M f l' ;; ret (y :: ys)
  end.

(** ** Result tables *)

(** A frame of floats with row labels [L]: what [pd.DataFrame(d).T] builds
    from a dictionary of rows. *)
Record Table (L : Type) : Type := mkTable {
  index : list L;
  columns : list string;
  data : list (list float)
}.

Arguments mkTable {L} index columns data.
Arguments index {L} t.
Arguments columns {L} t.
Arguments data {L} t.

Definition row := dict string float.

(** The column labels: the union of the rows' keys, in order of first
    appearance. *)
Definition union_keys (rows : list row) : list string :=
  fold_left (fun acc r => fold_left add_key (dict_keys r) acc) rows [].

(** [pd.DataFrame(d).T]: one row per key of [d], a cell a row lacks is NaN. *)
Definition DataFrame_T {L : Type} (d : dict L row) : Table L :=
  let cols := union_keys (map snd d) in
  {| index := dict_keys d;
     columns := cols;
     data := map (fun kv => map (fun c => dict_get_or c nan (snd kv)) cols) d |}.

(** [pd.DataFrame()] *)
Definition empty_frame {L : Type} : Table L :=
  {| index := []; columns := []; data := [] |}.

(** [t.style.map(func, subset=pd.IndexSlice[:, col])]: the frame and the
    styling function to apply, when the table is rendered, to the cells of
    column [col]. *)
Record Styler (L : Type) : Type := mkStyler {
  styler_data : Table L;
  styler_func : float -> string;
  styler_subset : string
}.

Arguments mkStyler {L} styler_data styler_func styler_subset.
Arguments styler_data {L} s.
Arguments styler_func {L} s.
Arguments styler_subset {L} s.

Definition style_map {L : Type} (t : Table L) (func : float -> string)
    (col : string) : Styler L :=
  {| styler_data := t; styler_func := func; styler_subset := col |}.

(** The message of the [KeyError] that selecting the column [label] raises
    in a frame that does not have it. *)
Definition none_in_columns (label : string) : string :=
  "None of [Index(['" ++ label ++ "'], dtype='object')] are in the [columns]".

(** The CSS of every cell, computed when the table is rendered; selecting a
    column the frame does not have raises [KeyError]. *)
Definition css_row (func : float -> string) (col : string)
    (cols : list string) (r : list float) : list string :=
  map (fun cx => if String.eqb (fst cx) col then func (snd cx) else "")
      (combine cols r).

Definition css {L : Type} (s : Styler L) : res (list (list string)) :=
  let t := styler_data s in
  if existsb (String.eqb (styler_subset s)) (columns t)
  then Ok (map (css_row (styler_func s) (styler_subset s) (columns t)) (data t))
  else Raise (KeyError (none_in_columns (styler_subset s))).

(** ** The program *)

Definition highlight_significant (val : float) : string :=
  if PrimFloat.ltb val 0.05 then "background-color: yellow" else "".

(** The local [results] of the two rank tests:
    categorical field, then numerical field, then the entry. *)
Definition results_t := dict string (dict string row).

(** [[
      if cat_var not in results:
          results[cat_var] = {}
      results[cat_var][variable] = entry
    ]] *)
Definition store_result (cat_var variable : string) (entry : row)
    (results : results_t) : results_t :=
  let results :=
    if dict_has cat_var results then results else dict_set cat_var [] results in
  dict_set cat_var (dict_set variable entry (dict_get_or cat_var [] results)) results.

Definition entry_of (results : results_t) (cat_var variable : string) : option row :=
  match dict_get cat_var results with
  | Some inner => dict_get variable inner
  | None => None
  end.

(** [df[df[cat_var] == category][variable]] *)
Definition group (cat_var : string) (category : value) (variable : string) : M Series :=
  col <- df_getitem cat_var ;;
  sub <- df_loc (eq_mask col category) ;;
  lift (getitem sub variable).

(** One item of the comprehension below:
    [(cat_var, variable): results[cat_var].get(variable, {})]. *)
Definition result_item (results : results_t) (cat_var variable : string)
    (items : dict (string * string) row) : M (dict (string * string) row) :=
  match dict_get cat_var results with
  | None => raise (KeyError cat_var)
  | Some inner =>
      ret (dict_set (cat_var, variable) (dict_get_or variable [] inner) items)
  end.

(** [[
      {(cat_var, variable): results[cat_var].get(variable, {})
       for cat_var in categorical_vars for variable in numerical_variable}
    ]] *)
Definition result_items (results : results_t)
    (categorical_vars numerical_variable : list string)
  : M (dict (string * string) row) :=
  for_ categorical_vars (fun cat_var items =>
    for_ numerical_variable (result_item results cat_var) items) [].

Inductive alternative : Type := two_sided | less | greater.

(** What a scipy routine does: return the statistic and the p-value, or
    raise. *)
Inductive scipy_result : Type :=
| Stat (statistic pvalue : float)
| Fails (msg : string).

Definition scipy (r : scipy_result) : M (float * float) :=
  match r with
  | Stat s p => ret (s, p)
  | Fails msg => raise (ScipyError msg)
  end.

(** What [kruskal_wallis_test] returns: a styled table, or a bare frame. *)
Inductive frame_or_styler : Type :=
| Styled (s : Styler (string * string))
| Unstyled (t : Table (string * string)).

Section Npstat.

(** [scipy.stats.mannwhitneyu], [kruskal] and [f_oneway]. *)
Variable mannwhitneyu : Series -> Series -> alternative -> scipy_result.
Variable kruskal : list Series -> scipy_result.
Variable f_oneway : list Series -> scipy_result.

(** The body of the two loops of [mann_whitney_test]. *)
Definition mann_whitney_body (cat_var variable : string) (results : results_t)
  : M results_t :=
  col <- df_getitem cat_var ;;
  let categories := unique col in
  if Nat.eqb (length categories) 2 then
    group_1 <- group cat_var (nth 0 categories (Num nan)) variable ;;
    group_2 <- group cat_var (nth 1 categories (Num nan)) variable ;;
    up <- scipy (mannwhitneyu group_1 group_2 two_sided) ;;
    ret (store_result cat_var variable
           [("U-statistic", fst up); ("p-value", snd up)] results)
  else ret results.

Definition mann_whitney_results (categorical_vars numerical_variable : list string)
  : M results_t :=
  for_ categorical_vars (fun cat_var results =>
    for_ numerical_variable (mann_whitney_body cat_var) results) [].

Definition mann_whitney_test (categorical_vars numerical_variable : list string)
  : M (Styler (string * string)) :=
  results <- mann_whitney_results categorical_vars numerical_variable ;;
  items <- result_items results categorical_vars numerical_variable ;;
  let results_df := DataFrame_T items in
  ret (style_map results_df highlight_significant "p-value").

(** [[df[df[cat_var] == category][variable] for category in categories]] *)
Definition groups_of (cat_var : string) (categories : list value)
    (variable : string) : M (list Series) :=
  map_M (fun category => group cat_var category variable) categories.

Definition kruskal_body (cat_var : string) (categories : list value)
    (variable : string) (results : results_t) : M results_t :=
  groups <- groups_of cat_var categories variable ;;
  hp <- scipy (kruskal groups) ;;
  ret (store_result cat_var variable
         [("H-statistic", fst hp); ("p-value", snd hp)] results).

(** The body of the loop over the categorical fields. *)
Definition kruskal_field (numerical_variable : list string) (cat_var : string)
    (results : results_t) : M results_t :=
  col <- df_getitem cat_var ;;
  let categories := unique col in
  if Nat.leb 3 (length categories) then
    for_ numerical_variable (kruskal_body cat_var categories) results
  else ret results.

Definition kruskal_wallis_results (categorical_vars numerical_variable : list string)
  : M results_t :=
  for_ categorical_vars (kruskal_field numerical_variable) [].

Definition kruskal_wallis_test (categorical_vars numerical_variable : list string)
  : M frame_or_styler :=
  results <- kruskal_wallis_results categorical_vars numerical_variable ;;
  match results with
  | _ :: _ =>
      items <- result_items results categorical_vars numerical_variable ;;
      let results_df := DataFrame_T items in
      ret (Styled (style_map results_df highlight_significant "p-value"))
  | [] => ret (Unstyled empty_frame)
  end.

Definition anova_body (categorical_variable variable : string)
    (results : dict string row) : M (dict string row) :=
  col <- df_getitem categorical_variable ;;
  groups <- groups_of categorical_variable (unique col) variable ;;
  fp <- scipy (f_oneway groups) ;;
  ret (dict_set variable [("F-Statistics", fst fp); ("p-value", snd fp)] results).

Definition anova_results (numerical_variable : list string)
    (categorical_variable : string) : M (dict string row) :=
  for_ numerical_variable (anova_body categorical_variable) [].

Definition anova (numerical_variable : list string) (categorical_variable : string)
  : M (Styler string) :=
  results <- anova_results numerical_variable categorical_variable ;;
  let results_df := DataFrame_T results in
  ret (style_map results_df highlight_significant "p-value").

End Npstat.

(** ** Vocabulary of the properties *)

(** A computation that leaves the caller's frame as it found it. *)
Definition readonly {A : Type} (m : M A) : Prop :=
  forall df, frame_after m df = df.

(** The number of distinct values of a column of the frame, when it has
    that column. *)
Definition nunique (df : DataFrame) (col : string) : option nat :=
  match dict_get col df with
  | Some s => Some (length (unique s))
  | None => None
  end.

(** The pairs of the two nested loops, in the order they are visited. *)
Definition pairs (categorical_vars numerical_variable : list string)
  : list (string * string) :=
  flat_map (fun cat_var => map (pair cat_var) numerical_variable) categorical_vars.

(** The row of a table with a given label. *)
Definition Table_row {L : Type} `{EqKey L} (t : Table L) (label : L)
  : option (list float) :=
  dict_get label (combine (index t) (data t)).

Definition table_of (out : frame_or_styler) : Table (string * string) :=
  match out with
  | Styled s => styler_data s
  | Unstyled t => t
  end.

(** *** What the loops have computed

    [applies c] is a test's condition on the categorical field [c] and
    [computed c v e] says that [e] is the entry the test computes for the
    pair [(c, v)].  [results_inv] relates the [results] of a rank test to
    the pairs its loops have visited. *)

Definition results_inv (applies : string -> Prop)
    (computed : string -> string -> row -> Prop)
    (visited : list (string * string)) (results : results_t) : Prop :=
  NoDup (dict_keys results) /\
  (forall c inner, dict_get c results = Some inner ->
     inner <> [] /\ NoDup (dict_keys inner)) /\
  (forall c v e, entry_of results c v = Some e ->
     In (c, v) visited /\ computed c v e) /\
  (forall c v, In (c, v) visited -> applies c ->
     exists e, entry_of results c v = Some e).

(** The items of the dictionary comprehension after the pairs [visited]. *)
Definition items_inv (results : results_t) (visited : list (string * string))
    (items : dict (string * string) row) : Prop :=
  dict_keys items = distinct visited /\
  (forall c v e, dict_get (c, v) items = Some e ->
     exists inner, dict_get c results = Some inner /\ e = dict_get_or v [] inner).

(** The entry [mann_whitney_test] computes for a pair: the two-sided test on
    the rows of the first and of the second category of a field with two
    categories. *)
Definition mw_computed
    (mannwhitneyu : Series -> Series -> alternative -> scipy_result)
    (df : DataFrame) (c v : string) (e : row) : Prop :=
  exists col g1 g2 u p,
    dict_get c df = Some col /\ length (unique col) = 2 /\
    run (group c (nth 0 (unique col) (Num nan)) v) df = Ok g1 /\
    run (group c (nth 1 (unique col) (Num nan)) v) df = Ok g2 /\
    mannwhitneyu g1 g2 two_sided = Stat u p /\
    e = [("U-statistic", u); ("p-value", p)].

Definition binary (df : DataFrame) (c : string) : Prop := nunique df c = Some 2.

(** The entry [kruskal_wallis_test] computes for a pair: the test on the
    groups of all the categories of a field with three categories or more. *)
Definition kw_computed (kruskal : list Series -> scipy_result)
    (df : DataFrame) (c v : string) (e : row) : Prop :=
  exists col gs h p,
    dict_get c df = Some col /\ 3 <= length (unique col) /\
    run (groups_of c (unique col) v) df = Ok gs /\
    kruskal gs = Stat h p /\
    e = [("H-statistic", h); ("p-value", p)].

Definition at_least_three (df : DataFrame) (c : string) : Prop :=
  exists n, nunique df c = Some n /\ 3 <= n.

(** The entry [anova] computes for a numerical field: the test on the groups
    of all the categories of the categorical field [c]. *)
Definition anova_computed (f_oneway : list Series -> scipy_result)
    (df : DataFrame) (c v : string) (e : row) : Prop :=
  exists col gs f p,
    dict_get c df = Some col /\
    run (groups_of c (unique col) v) df = Ok gs /\
    f_oneway gs = Stat f p /\
    e = [("F-Statistics", f); ("p-value", p)].

Definition anova_inv (f_oneway : list Series -> scipy_result)
    (df : DataFrame) (c : string)
    (visited : list string) (results : dict string row) : Prop :=
  dict_keys results = distinct visited /\
  (forall v e, dict_get v results = Some e -> anova_computed f_oneway df c v e).

(** *** The groups of a field

    The values of the column [s] in the rows whose label in the column [col]
    equals [cat]: the group of the category [cat], read off the two columns
    row by row. *)
Definition rows_of (col s : Series) (cat : value) : Series :=
  map snd (filter (fun r => value_eqb (fst r) cat) (combine col s)).

(** *** The contract of the scipy routines *)

(** Modelled from the spec: the statistic of a Test Result is a real number.
    The routines of scipy.stats that compute it are not part of the
    repository. *)
Definition is_real (statistic : float) : bool :=
  PrimFloat.ltb (PrimFloat.abs statistic) infinity.

(** Modelled from the spec: the p-value of a Test Result lies in the closed
    interval from 0 to 1. *)
Definition in_unit_interval (pvalue : float) : bool :=
  PrimFloat.leb 0 pvalue && PrimFloat.leb pvalue 1.

(** Modelled from the spec: the invariant of a Test Result. *)
Definition valid_test_result (statistic pvalue : float) : Prop :=
  is_real statistic = true /\ in_unit_interval pvalue = true.

(** Modelled from the spec: a routine of scipy.stats keeps the invariant on
    valid input, that is, what it returns on groups that are [valid] is a
    valid Test Result. *)
Definition keeps_contract (valid : list Series -> Prop)
    (routine : list Series -> scipy_result) : Prop :=
  forall groups statistic pvalue,
    valid groups -> routine groups = Stat statistic pvalue ->
    valid_test_result statistic pvalue.

(** *** Labels and observations *)

(** A label that equals itself: every value but NaN. *)
Definition labelled (x : value) : bool := value_eqb x x.

(** The values of [s] in the rows whose label in [col] is not missing. *)
Definition observed (col s : Series) : Series := take (map labelled col) s.

(** No two of the values are one key of the hash table. *)
Fixpoint distinct_keys (l : list value) : Prop :=
  match l with
  | [] => True
  | a :: l' => (forall b, In b l' -> same_key a b = false) /\ distinct_keys l'
  end.

(** ** A data set and stand-ins for scipy, for the examples *)

(** Six observations: [region] has two categories, [season] four, [site]
    one, and [plot] three, one of which is a missing label. *)
Definition example_df : DataFrame :=
  [ ("region", [Str "A"; Str "A"; Str "A"; Str "B"; Str "B"; Str "B"]);
    ("season", [Str "winter"; Str "spring"; Str "summer";
                Str "autumn"; Str "winter"; Str "spring"]);
    ("site", [Str "k"; Str "k"; Str "k"; Str "k"; Str "k"; Str "k"]);
    ("plot", [Str "p"; Str "q"; Num nan; Str "p"; Str "q"; Num nan]);
    ("NDVI", [Num 0.2; Num 0.3; Num 0.25; Num 0.6; Num 0.55; Num 0.58]);
    ("temperature", [Num 11; Num 17; Num 25; Num 14; Num 9; Num 18]) ].

Definition has_empty_group (groups : list Series) : bool :=
  existsb (fun g => match g with [] => true | _ => false end) groups.

(** Routines that refuse an empty group and return fixed numbers on the
    other inputs. *)
Definition example_mannwhitneyu (x y : Series) (alt : alternative) : scipy_result :=
  if has_empty_group [x; y] then Fails "empty group" else Stat 0 0.1.

Definition example_kruskal (groups : list Series) : scipy_result :=
  if has_empty_group groups then Fails "empty group" else Stat 4.5 0.21.

Definition example_f_oneway (groups : list Series) : scipy_result :=
  if has_empty_group groups then Fails "empty group" else Stat 32 0.004.



(** A table as [mann_whitney_test] builds them. *)
Definition example_table : Table (string * string) :=
  {| index := [("region", "NDVI"); ("region", "temperature"); ("zone", "NDVI")];
     columns := ["U-statistic"; "p-value"];
     data := [[0; 0.01]; [4; 0.05]; [0.04; nan]]%float |}.

(** * Lemmas *)

Lemma key_eqb_refl {K : Type} `{EqKey K} (k : K) : key_eqb k k = true.
Proof. destruct (key_eqb_spec k k); congruence. Qed.

Lemma key_eqb_neq {K : Type} `{EqKey K} (a b : K) : a <> b -> key_eqb a b = false.
Proof. destruct (key_eqb_spec a b); congruence. Qed.

(** ** Dictionaries *)

Section DictFacts.
Context {K V : Type} `{EqKey K}.
Implicit Types (d : dict K V) (k : K) (v : V).

Lemma dict_get_set_eq k v d : dict_get k (dict_set k v d) = Some v.
Proof.
  induction d as [|[k' v'] d IH]; simpl.
  - now rewrite key_eqb_refl.
  - destruct (key_eqb_spec k k') as [->|Hne]; simpl.
    + now rewrite key_eqb_refl.
    + now rewrite (key_eqb_neq _ _ Hne).
Qed.

Lemma dict_get_set_neq k k' v d :
  k <> k' -> dict_get k' (dict_set k v d) = dict_get k' d.
Proof.
  intros Hne. induction d as [|[k0 v0] d IH]; simpl.
  - rewrite key_eqb_neq; auto.
  - destruct (key_eqb_spec k k0) as [->|Hk]; simpl.
    + rewrite key_eqb_neq; auto.
    + destruct (key_eqb k' k0); auto.
Qed.

Lemma dict_get_set k k' v d :
  dict_get k' (dict_set k v d) = if key_eqb k k' then Some v else dict_get k' d.
Proof.
  destruct (key_eqb_spec k k') as [->|Hne].
  - apply dict_get_set_eq.
  - now apply dict_get_set_neq.
Qed.

Lemma dict_get_In k d : dict_get k d <> None <-> In k (dict_keys d).
Proof.
  induction d as [|[k' v'] d IH]; simpl.
  - split; [congruence | tauto].
  - destruct (key_eqb_spec k k') as [->|Hne].
    + split; [auto | congruence].
    + rewrite IH. split; [auto | intros [Heq|Hin]; [congruence | auto]].
Qed.

Lemma dict_get_None k d : dict_get k d = None <-> ~ In k (dict_keys d).
Proof.
  rewrite <- dict_get_In. destruct (dict_get k d); split; try congruence.
  intros Hn. exfalso. apply Hn. congruence.
Qed.

Lemma dict_keys_set k v d :
  dict_keys (dict_set k v d) = add_key (dict_keys d) k.
Proof.
  unfold add_key. induction d as [|[k' v'] d IH]; simpl; auto.
  destruct (key_eqb_spec k k') as [->|Hne]; simpl; auto.
  rewrite IH. destruct (existsb (key_eqb k) (dict_keys d)); auto.
Qed.

Lemma dict_nonempty_get d : d <> [] -> exists k v, dict_get k d = Some v.
Proof.
  destruct d as [|[k v] d]; [congruence|]. intros _.
  exists k, v. simpl. now rewrite key_eqb_refl.
Qed.

Lemma dict_set_nonempty k v d : dict_set k v d <> [].
Proof.
  destruct d as [|[k' v'] d]; simpl; [congruence|].
  destruct (key_eqb k k'); congruence.
Qed.
End DictFacts.

Lemma existsb_key_In {K : Type} `{EqKey K} (k : K) (l : list K) :
  existsb (key_eqb k) l = true <-> In k l.
Proof.
  rewrite existsb_exists. split.
  - intros [x [Hin Hx]]. destruct (key_eqb_spec k x); congruence.
  - intros Hin. exists k. split; auto. apply key_eqb_refl.
Qed.

Lemma add_key_In {K : Type} `{EqKey K} (acc : list K) (k x : K) :
  In x (add_key acc k) <-> In x acc \/ x = k.
Proof.
  unfold add_key. destruct (existsb (key_eqb k) acc) eqn:E.
  - apply existsb_key_In in E. split; auto. intros [?| ->]; auto.
  - rewrite in_app_iff. simpl. intuition.
Qed.

Lemma add_key_NoDup {K : Type} `{EqKey K} (acc : list K) (k : K) :
  NoDup acc -> NoDup (add_key acc k).
Proof.
  intros Hnd. unfold add_key. destruct (existsb (key_eqb k) acc) eqn:E; auto.
  assert (~ In k acc) as Hnin.
  { rewrite <- existsb_key_In. congruence. }
  clear E. induction Hnd; simpl.
  - constructor; [tauto | constructor].
  - constructor.
    + rewrite in_app_iff. simpl. intros [?|[?|[]]]; [tauto|]. subst. apply Hnin. now left.
    + apply IHHnd. intros Hin. apply Hnin. now right.
Qed.

Lemma dict_set_NoDup {K V : Type} `{EqKey K} (k : K) (v : V) (d : dict K V) :
  NoDup (dict_keys d) -> NoDup (dict_keys (dict_set k v d)).
Proof. rewrite dict_keys_set. apply add_key_NoDup. Qed.

Lemma fold_add_key_In {K : Type} `{EqKey K} (l acc : list K) (x : K) :
  In x (fold_left add_key l acc) <-> In x acc \/ In x l.
Proof.
  revert acc. induction l as [|k l IH]; intros acc; simpl.
  - tauto.
  - rewrite IH, add_key_In. intuition (subst; auto).
Qed.

Lemma fold_add_key_NoDup {K : Type} `{EqKey K} (l acc : list K) :
  NoDup acc -> NoDup (fold_left add_key l acc).
Proof.
  revert acc. induction l as [|k l IH]; intros acc Hnd; simpl; auto.
  apply IH. now apply add_key_NoDup.
Qed.

Lemma distinct_In {K : Type} `{EqKey K} (l : list K) (x : K) :
  In x (distinct l) <-> In x l.
Proof. unfold distinct. rewrite fold_add_key_In. simpl. tauto. Qed.

Lemma distinct_NoDup {K : Type} `{EqKey K} (l : list K) : NoDup (distinct l).
Proof. apply fold_add_key_NoDup. constructor. Qed.

Lemma fold_add_key_fresh {K : Type} `{EqKey K} (l acc : list K) :
  NoDup (acc ++ l) -> fold_left add_key l acc = acc ++ l.
Proof.
  revert acc. induction l as [|k l IH]; intros acc Hnd; simpl.
  - now rewrite app_nil_r.
  - assert (existsb (key_eqb k) acc = false) as Hk.
    { destruct (existsb (key_eqb k) acc) eqn:E; auto.
      apply existsb_key_In in E. apply NoDup_remove_2 in Hnd.
      exfalso. apply Hnd. rewrite in_app_iff. auto. }
    unfold add_key at 2. rewrite Hk.
    rewrite IH; rewrite <- app_assoc; simpl; auto.
Qed.

(** A list without repetitions is the list of its distinct elements. *)
Lemma distinct_NoDup_id {K : Type} `{EqKey K} (l : list K) :
  NoDup l -> distinct l = l.
Proof. intros Hnd. unfold distinct. now rewrite fold_add_key_fresh. Qed.

Lemma in_pairs (cats nums : list string) (c v : string) :
  In (c, v) (pairs cats nums) <-> In c cats /\ In v nums.
Proof.
  unfold pairs. rewrite in_flat_map. split.
  - intros [c' [Hc Hin]]. apply in_map_iff in Hin.
    destruct Hin as [v' [Heq Hv]]. inversion Heq; subst. auto.
  - intros [Hc Hv]. exists c. split; auto. apply in_map_iff. eauto.
Qed.

(** ** Computations that only read the frame *)

Lemma readonly_ret {A : Type} (a : A) : readonly (ret a).
Proof. intros df. reflexivity. Qed.

Lemma readonly_raise {A : Type} (e : exn) : readonly (@raise A e).
Proof. intros df. reflexivity. Qed.

Lemma readonly_lift {A : Type} (r : res A) : readonly (lift r).
Proof. intros df. reflexivity. Qed.

Lemma readonly_df_getitem (col : string) : readonly (df_getitem col).
Proof. intros df. reflexivity. Qed.

Lemma readonly_df_loc (mask : list bool) : readonly (df_loc mask).
Proof. intros df. reflexivity. Qed.

Lemma readonly_scipy (r : scipy_result) : readonly (scipy r).
Proof. destruct r; intros df; reflexivity. Qed.

Lemma readonly_bind {A B : Type} (m : M A) (f : A -> M B) :
  readonly m -> (forall a, readonly (f a)) -> readonly (bind m f).
Proof.
  intros Hm Hf df. unfold frame_after, bind.
  specialize (Hm df). unfold frame_after in Hm.
  destruct (m df) as [df' [a|e]]; simpl in *; subst; auto.
  apply Hf.
Qed.

Lemma readonly_for {A S : Type} (l : list A) (body : A -> S -> M S) :
  (forall x s, readonly (body x s)) -> forall s, readonly (for_ l body s).
Proof.
  intros Hbody. induction l as [|x l IH]; intros s; simpl.
  - apply readonly_ret.
  - apply readonly_bind; auto.
Qed.

Lemma readonly_map_M {A B : Type} (f : A -> M B) (l : list A) :
  (forall x, readonly (f x)) -> readonly (map_M f l).
Proof.
  intros Hf. induction l as [|x l IH]; simpl.
  - apply readonly_ret.
  - apply readonly_bind; auto. intros y.
    apply readonly_bind; auto. intros ys. apply readonly_ret.
Qed.

Lemma readonly_if {A : Type} (b : bool) (m1 m2 : M A) :
  readonly m1 -> readonly m2 -> readonly (if b then m1 else m2).
Proof. destruct b; auto. Qed.

Create HintDb readonly.
#[export] Hint Resolve readonly_ret readonly_raise readonly_lift
  readonly_df_getitem readonly_df_loc readonly_scipy readonly_if : readonly.

Ltac readonly_tac :=
  repeat first
    [ progress cbv zeta
    | apply readonly_bind; [|intro]
    | apply readonly_for; intros
    | apply readonly_map_M; intros
    | apply readonly_if
    | solve [auto with readonly] ].

Lemma readonly_group (c : string) (cat : value) (v : string) :
  readonly (group c cat v).
Proof. unfold group. readonly_tac. Qed.

#[export] Hint Resolve readonly_group : readonly.

Lemma readonly_result_item (results : results_t) (c v : string) items :
  readonly (result_item results c v items).
Proof. unfold result_item. destruct (dict_get c results); auto with readonly. Qed.

#[export] Hint Resolve readonly_result_item : readonly.

Lemma readonly_result_items (results : results_t) (cats nums : list string) :
  readonly (result_items results cats nums).
Proof. unfold result_items. readonly_tac. Qed.

#[export] Hint Resolve readonly_result_items : readonly.

(** ** Running a sequence *)

Lemma run_ret {A : Type} (a : A) df : run (ret a) df = Ok a.
Proof. reflexivity. Qed.

Lemma run_raise {A : Type} (e : exn) df : run (@raise A e) df = Raise e.
Proof. reflexivity. Qed.

Lemma run_bind {A B : Type} (m : M A) (f : A -> M B) df :
  readonly m ->
  run (bind m f) df =
  match run m df with
  | Ok a => run (f a) df
  | Raise e => Raise e
  end.
Proof.
  intros Hm. specialize (Hm df). unfold run, frame_after, bind in *.
  destruct (m df) as [df' [a|e]]; simpl in *; subst; auto.
Qed.

Lemma run_scipy (r : scipy_result) df :
  run (scipy r) df =
  match r with
  | Stat s p => Ok (s, p)
  | Fails msg => Raise (ScipyError msg)
  end.
Proof. destruct r; reflexivity. Qed.

Lemma run_for_cons {A S : Type} (x : A) (l : list A) (body : A -> S -> M S) s df :
  readonly (body x s) ->
  run (for_ (x :: l) body s) df =
  match run (body x s) df with
  | Ok s' => run (for_ l body s') df
  | Raise e => Raise e
  end.
Proof. intros Hb. simpl. now rewrite run_bind. Qed.

(** A loop invariant indexed by the elements already visited. *)
Lemma for_invariant {A S : Type} (body : A -> S -> M S) (P : list A -> S -> Prop)
    df (l : list A) :
  (forall x s, readonly (body x s)) ->
  (forall visited x s s', In x l -> P visited s ->
     run (body x s) df = Ok s' -> P (visited ++ [x]) s') ->
  forall visited s s',
    P visited s -> run (for_ l body s) df = Ok s' -> P (visited ++ l) s'.
Proof.
  intros Hro. induction l as [|x l IH]; intros Hstep visited s s' HP Hrun.
  - simpl in Hrun. inversion Hrun; subst. now rewrite app_nil_r.
  - rewrite run_for_cons in Hrun by auto.
    destruct (run (body x s) df) as [s1|e] eqn:E; [|discriminate].
    replace (visited ++ x :: l) with ((visited ++ [x]) ++ l)
      by (rewrite <- app_assoc; reflexivity).
    apply IH with (s := s1); auto.
    + intros ? ? ? ? Hin. apply Hstep. now right.
    + apply Hstep with (s := s); simpl; auto.
Qed.

(** A loop whose body returns on every element returns. *)
Lemma for_returns {A S : Type} (body : A -> S -> M S) df (l : list A) :
  (forall x s, readonly (body x s)) ->
  (forall x s, In x l -> exists s', run (body x s) df = Ok s') ->
  forall s, exists s', run (for_ l body s) df = Ok s'.
Proof.
  intros Hro. induction l as [|x l IH]; intros Hbody s.
  - exists s. reflexivity.
  - rewrite run_for_cons by auto.
    destruct (Hbody x s) as [s1 Hs1]; [now left|]. rewrite Hs1.
    apply IH. intros ? ? Hin. apply Hbody. now right.
Qed.

(** A loop either returns, every element having been handled normally, or
    raises what its body raised on one of the elements. *)
Lemma for_outcome {A S : Type} (body : A -> S -> M S)
    (good : A -> Prop) (bad : A -> exn -> Prop) df (l : list A) :
  (forall x s, readonly (body x s)) ->
  (forall x s, In x l ->
     (exists s', run (body x s) df = Ok s' /\ good x) \/
     (exists e, run (body x s) df = Raise e /\ bad x e)) ->
  forall s,
    (exists s', run (for_ l body s) df = Ok s' /\ Forall good l) \/
    (exists x e, In x l /\ run (for_ l body s) df = Raise e /\ bad x e).
Proof.
  intros Hro. induction l as [|x l IH]; intros Hbody s.
  - left. exists s. split; [reflexivity | constructor].
  - rewrite run_for_cons by auto.
    destruct (Hbody x s) as [[s1 [Hs1 Hg]]|[e [He Hb]]]; [now left| |].
    + rewrite Hs1.
      destruct (IH (fun y t Hin => Hbody y t (or_intror Hin)) s1)
        as [[s' [Hs' Hall]]|[y [e [Hin [He Hb]]]]].
      * left. exists s'. split; auto.
      * right. exists y, e. simpl; auto.
    + rewrite He. right. exists x, e. simpl; auto.
Qed.

(** ** Selecting a group *)

Lemma dict_get_loc_mask (df : DataFrame) (mask : list bool) (v : string) :
  dict_get v (loc_mask df mask) =
  match dict_get v df with
  | Some s => Some (take mask s)
  | None => None
  end.
Proof.
  unfold loc_mask. induction df as [|[k s] df IH]; simpl; auto.
  destruct (String.eqb v k); auto.
Qed.

Lemma run_group (c : string) (cat : value) (v : string) df :
  run (group c cat v) df =
  match dict_get c df with
  | None => Raise (KeyError c)
  | Some col =>
      match dict_get v df with
      | None => Raise (KeyError v)
      | Some s => Ok (take (eq_mask col cat) s)
      end
  end.
Proof.
  unfold group, run, bind, df_getitem, df_loc, lift, getitem. simpl.
  destruct (dict_get c df) as [col|]; simpl; auto.
  rewrite dict_get_loc_mask. destruct (dict_get v df); auto.
Qed.

Lemma readonly_groups_of (c : string) (cats : list value) (v : string) :
  readonly (groups_of c cats v).
Proof. unfold groups_of. readonly_tac. Qed.

#[export] Hint Resolve readonly_groups_of : readonly.

(** The groups are the rows of every category, in the order of the
    categories: none is left out. *)
Lemma run_groups_of (c : string) (cats : list value) (v : string) df col s :
  dict_get c df = Some col -> dict_get v df = Some s ->
  run (groups_of c cats v) df =
  Ok (map (fun cat => take (eq_mask col cat) s) cats).
Proof.
  intros Hc Hv. unfold groups_of.
  induction cats as [|cat cats IH]; simpl; auto.
  rewrite run_bind by auto with readonly.
  rewrite run_group, Hc, Hv.
  rewrite run_bind by (apply readonly_map_M; auto with readonly).
  rewrite IH. reflexivity.
Qed.

Lemma run_groups_of_length (c : string) (cats : list value) (v : string) df gs :
  run (groups_of c cats v) df = Ok gs -> length gs = length cats.
Proof.
  unfold groups_of. revert gs.
  induction cats as [|cat cats IH]; simpl; intros gs Hrun.
  - inversion Hrun. reflexivity.
  - rewrite run_bind in Hrun by auto with readonly.
    destruct (run (group c cat v) df) as [g|e]; [|discriminate].
    rewrite run_bind in Hrun by (apply readonly_map_M; auto with readonly).
    destruct (run (map_M _ cats) df) as [gs'|e]; [|discriminate].
    inversion Hrun; subst. simpl. f_equal. now apply IH.
Qed.

(** *** When a group is empty

    A category that [unique()] returns is a value of the column, so its
    group has a row, unless the category is NaN, which equals no value. *)

Lemma unique_from_In (seen : list value) (s : Series) (x : value) :
  In x (unique_from seen s) -> In x seen \/ In x s.
Proof.
  revert seen. induction s as [|y s IH]; intros seen Hin; simpl in *; auto.
  destruct (existsb (same_key y) seen).
  - apply IH in Hin. tauto.
  - apply IH in Hin. rewrite in_app_iff in Hin. simpl in Hin. intuition.
Qed.

Lemma unique_In (s : Series) (x : value) : In x (unique s) -> In x s.
Proof. intros Hin. apply unique_from_In in Hin. destruct Hin as [[]|Hin]; auto. Qed.

Lemma take_eq_mask_nonempty (col s : Series) (cat : value) :
  In cat col -> value_eqb cat cat = true -> length s = length col ->
  take (eq_mask col cat) s <> [].
Proof.
  revert s. induction col as [|x col IH]; intros s Hin Hrefl Hlen; [destruct Hin|].
  destruct s as [|y s]; [discriminate|]. simpl.
  destruct (value_eqb x cat) eqn:E; [discriminate|].
  destruct Hin as [->|Hin]; [congruence|].
  apply IH; auto.
Qed.

Lemma value_eqb_nan (x : value) : value_eqb x (Num nan) = false.
Proof.
  destruct x as [s|x]; auto. simpl.
  rewrite FloatAxioms.eqb_spec.
  change (Prim2SF nan) with S754_nan.
  destruct (Prim2SF x); reflexivity.
Qed.

(** The group of the category NaN has no row. *)
Lemma take_eq_mask_nan (col s : Series) : take (eq_mask col (Num nan)) s = [].
Proof.
  revert s. induction col as [|x col IH]; intros s; simpl; auto.
  destruct s as [|y s]; auto. now rewrite value_eqb_nan.
Qed.

(** In a frame whose columns have one length and whose categorical column
    has no missing label, no group is empty. *)
Lemma groups_of_nonempty (c v : string) df col s gs :
  dict_get c df = Some col -> dict_get v df = Some s ->
  length s = length col ->
  (forall cat, In cat col -> value_eqb cat cat = true) ->
  run (groups_of c (unique col) v) df = Ok gs -> ~ In [] gs.
Proof.
  intros Hc Hv Hlen Hlabels Hgs Hin.
  rewrite (run_groups_of c (unique col) v df col s Hc Hv) in Hgs.
  inversion Hgs; subst gs. apply in_map_iff in Hin.
  destruct Hin as (cat & Hempty & Hcat). apply unique_In in Hcat.
  apply (take_eq_mask_nonempty col s cat); auto.
Qed.

(** ** Storing an entry in [results] *)

Lemma dict_get_store (c v : string) (e : row) (r : results_t) (c' : string) :
  dict_get c' (store_result c v e r) =
  if String.eqb c c' then Some (dict_set v e (dict_get_or c [] r))
  else dict_get c' r.
Proof.
  unfold store_result, dict_has, dict_get_or, results_t in *.
  destruct (dict_get c r) as [inner|] eqn:E.
  - rewrite dict_get_set, E. reflexivity.
  - rewrite dict_get_set_eq, !dict_get_set. simpl.
    destruct (String.eqb c c'); auto.
Qed.

Lemma entry_of_store (c v : string) (e : row) (r : results_t) (c' v' : string) :
  entry_of (store_result c v e r) c' v' =
  if String.eqb c c' && String.eqb v v' then Some e else entry_of r c' v'.
Proof.
  unfold entry_of. rewrite dict_get_store.
  destruct (String.eqb_spec c c') as [->|Hc]; simpl; auto.
  rewrite dict_get_set. simpl.
  destruct (String.eqb v v'); auto.
  unfold dict_get_or, results_t in *. destruct (dict_get c' r); auto.
Qed.

Lemma store_result_keys_NoDup (c v : string) (e : row) (r : results_t) :
  NoDup (dict_keys r) -> NoDup (dict_keys (store_result c v e r)).
Proof.
  intros Hnd. unfold store_result.
  apply dict_set_NoDup. destruct (dict_has c r); auto.
  now apply dict_set_NoDup.
Qed.

(** ** The invariant of the [results] of the rank tests *)

Section ResultsInvariant.

Variable applies : string -> Prop.
Variable computed : string -> string -> row -> Prop.
Hypothesis computed_applies : forall c v e, computed c v e -> applies c.

Lemma results_inv_nil : results_inv applies computed [] [].
Proof.
  split; [constructor|]. split; [|split]; simpl.
  - discriminate.
  - discriminate.
  - tauto.
Qed.

Lemma results_inv_store visited r c v e :
  results_inv applies computed visited r -> computed c v e ->
  results_inv applies computed (visited ++ [(c, v)]) (store_result c v e r).
Proof.
  intros (Hnd & Hin & Hsound & Hcompl) He.
  split; [|split; [|split]].
  - now apply store_result_keys_NoDup.
  - intros c' inner Hget. rewrite dict_get_store in Hget.
    destruct (String.eqb c c').
    + inversion Hget. split; [apply dict_set_nonempty|].
      apply dict_set_NoDup. unfold dict_get_or.
      destruct (dict_get c r) as [i|] eqn:Ei; [now apply Hin in Ei | constructor].
    + now apply Hin in Hget.
  - intros c' v' e' Hget. rewrite entry_of_store in Hget. rewrite in_app_iff.
    destruct (String.eqb_spec c c') as [->|]; simpl in Hget;
      [destruct (String.eqb_spec v v') as [->|]|].
    + inversion Hget; subst. split; [right; now left | exact He].
    + apply Hsound in Hget. tauto.
    + apply Hsound in Hget. tauto.
  - intros c' v' Hv Happ. rewrite entry_of_store.
    destruct (String.eqb c c' && String.eqb v v') eqn:E; [eauto|].
    apply in_app_iff in Hv. destruct Hv as [Hv|[Hv|[]]].
    + now apply Hcompl.
    + inversion Hv; subst. now rewrite !String.eqb_refl in E.
Qed.

Lemma results_inv_skip visited extra r :
  results_inv applies computed visited r ->
  (forall c v, In (c, v) extra -> ~ applies c) ->
  results_inv applies computed (visited ++ extra) r.
Proof.
  intros (Hnd & Hin & Hsound & Hcompl) Hextra.
  split; [|split; [|split]]; auto.
  - intros c v e Hget. rewrite in_app_iff. apply Hsound in Hget. tauto.
  - intros c v Hv Happ. apply in_app_iff in Hv. destruct Hv as [Hv|Hv].
    + now apply Hcompl.
    + exfalso. now apply (Hextra c v).
Qed.

(** A categorical field is a key of [results] only if the test applies
    to it. *)
Lemma results_inv_key visited r c inner :
  results_inv applies computed visited r -> dict_get c r = Some inner -> applies c.
Proof.
  intros (Hnd & Hin & Hsound & Hcompl) Hget.
  destruct (Hin _ _ Hget) as [Hne _].
  destruct (dict_nonempty_get _ Hne) as (v & e & Hve).
  apply (computed_applies c v e).
  apply Hsound. unfold entry_of. now rewrite Hget.
Qed.

Lemma results_inv_no_key visited r c :
  results_inv applies computed visited r -> ~ applies c -> dict_get c r = None.
Proof.
  intros Hinv Hn. destruct (dict_get c r) as [inner|] eqn:E; auto.
  exfalso. apply Hn. eapply results_inv_key; eauto.
Qed.

Lemma results_inv_has_key visited r c v :
  results_inv applies computed visited r -> In (c, v) visited -> applies c ->
  exists inner, dict_get c r = Some inner.
Proof.
  intros (Hnd & Hin & Hsound & Hcompl) Hv Happ.
  destruct (Hcompl _ _ Hv Happ) as [e He]. unfold entry_of in He.
  destruct (dict_get c r) as [inner|]; [eauto | discriminate].
Qed.

End ResultsInvariant.

Lemma pairs_snoc (cats nums : list string) (c : string) :
  pairs (cats ++ [c]) nums = pairs cats nums ++ map (pair c) nums.
Proof. unfold pairs. rewrite flat_map_app. simpl. now rewrite app_nil_r. Qed.

Lemma run_df_getitem (c : string) df : run (df_getitem c) df = getitem df c.
Proof. reflexivity. Qed.

(** ** The loops of [mann_whitney_test] *)

Section MannWhitney.

Variable mannwhitneyu : Series -> Series -> alternative -> scipy_result.
Variable df : DataFrame.

Lemma mw_computed_binary c v e : mw_computed mannwhitneyu df c v e -> binary df c.
Proof.
  intros (col & g1 & g2 & u & p & Hc & Hlen & _).
  unfold binary, nunique. now rewrite Hc, Hlen.
Qed.

Lemma readonly_mann_whitney_body c v r :
  readonly (mann_whitney_body mannwhitneyu c v r).
Proof. unfold mann_whitney_body. readonly_tac. Qed.

Lemma readonly_mann_whitney_results cats nums :
  readonly (mann_whitney_results mannwhitneyu cats nums).
Proof.
  unfold mann_whitney_results. apply readonly_for. intros.
  apply readonly_for. intros. apply readonly_mann_whitney_body.
Qed.

Lemma mann_whitney_body_inv visited r c v r' :
  results_inv (binary df) (mw_computed mannwhitneyu df) visited r ->
  run (mann_whitney_body mannwhitneyu c v r) df = Ok r' ->
  results_inv (binary df) (mw_computed mannwhitneyu df) (visited ++ [(c, v)]) r'.
Proof.
  intros Hinv Hrun. unfold mann_whitney_body in Hrun.
  rewrite run_bind, run_df_getitem in Hrun by auto with readonly.
  unfold getitem in Hrun. destruct (dict_get c df) as [col|] eqn:Hc; [|discriminate].
  cbv zeta in Hrun. destruct (Nat.eqb_spec (length (unique col)) 2) as [Hlen|Hlen].
  - rewrite run_bind in Hrun by auto with readonly.
    destruct (run (group c (nth 0 (unique col) (Num nan)) v) df) as [g1|] eqn:Hg1;
      [|discriminate].
    rewrite run_bind in Hrun by auto with readonly.
    destruct (run (group c (nth 1 (unique col) (Num nan)) v) df) as [g2|] eqn:Hg2;
      [|discriminate].
    rewrite run_bind, run_scipy in Hrun by auto with readonly.
    destruct (mannwhitneyu g1 g2 two_sided) as [u p|msg] eqn:Hs; [|discriminate].
    rewrite run_ret in Hrun. inversion Hrun; subst. simpl.
    apply results_inv_store; auto.
    exists col, g1, g2, u, p. auto 10.
  - rewrite run_ret in Hrun. inversion Hrun; subst.
    apply results_inv_skip; auto.
    intros c' v' [Heq|[]]. inversion Heq; subst.
    unfold binary, nunique. rewrite Hc. congruence.
Qed.

Lemma mann_whitney_inner_inv visited r c nums r' :
  results_inv (binary df) (mw_computed mannwhitneyu df) visited r ->
  run (for_ nums (mann_whitney_body mannwhitneyu c) r) df = Ok r' ->
  results_inv (binary df) (mw_computed mannwhitneyu df) (visited ++ map (pair c) nums) r'.
Proof.
  intros Hinv Hrun.
  apply (fun Hro Hstep H0 =>
           for_invariant _
             (fun vs s => results_inv (binary df) (mw_computed mannwhitneyu df) (visited ++ map (pair c) vs) s)
             df nums Hro Hstep [] r r' H0 Hrun).
  - intros; apply readonly_mann_whitney_body.
  - intros vs x s s' _ HP Hb. rewrite map_app, app_assoc. simpl.
    eapply mann_whitney_body_inv; eauto.
  - simpl. now rewrite app_nil_r.
Qed.

(** When the two loops are over, [results] holds the entries of the pairs
    whose categorical field has two categories, and nothing else. *)
Lemma mann_whitney_results_inv cats nums r :
  run (mann_whitney_results mannwhitneyu cats nums) df = Ok r ->
  results_inv (binary df) (mw_computed mannwhitneyu df) (pairs cats nums) r.
Proof.
  intros Hrun. unfold mann_whitney_results in Hrun.
  apply (fun Hro Hstep H0 =>
           for_invariant _
             (fun cs s => results_inv (binary df) (mw_computed mannwhitneyu df) (pairs cs nums) s)
             df cats Hro Hstep [] [] r H0 Hrun).
  - intros; apply readonly_for; intros; apply readonly_mann_whitney_body.
  - intros cs c s s' _ HP Hb. rewrite pairs_snoc.
    eapply mann_whitney_inner_inv; eauto.
  - apply results_inv_nil.
Qed.

(** The loops return when the fields are columns of the frame and scipy
    returns on the groups it is given. *)
Lemma mann_whitney_results_returns cats nums :
  (forall c, In c cats -> dict_get c df <> None) ->
  (forall v, In v nums -> dict_get v df <> None) ->
  (forall c v col g1 g2,
     In c cats -> In v nums ->
     dict_get c df = Some col -> length (unique col) = 2 ->
     run (group c (nth 0 (unique col) (Num nan)) v) df = Ok g1 ->
     run (group c (nth 1 (unique col) (Num nan)) v) df = Ok g2 ->
     exists u p, mannwhitneyu g1 g2 two_sided = Stat u p) ->
  exists r, run (mann_whitney_results mannwhitneyu cats nums) df = Ok r.
Proof.
  intros Hcats Hnums Hstat. unfold mann_whitney_results.
  apply for_returns.
  - intros; apply readonly_for; intros; apply readonly_mann_whitney_body.
  - intros c r Hc. apply for_returns.
    + intros; apply readonly_mann_whitney_body.
    + intros v s Hv. unfold mann_whitney_body.
      rewrite run_bind, run_df_getitem by auto with readonly. unfold getitem.
      destruct (dict_get c df) as [col|] eqn:Ec; [|now apply Hcats in Hc].
      destruct (dict_get v df) as [sv|] eqn:Ev; [|now apply Hnums in Hv].
      cbv zeta. destruct (Nat.eqb_spec (length (unique col)) 2) as [Hlen|Hlen].
      * rewrite run_bind by auto with readonly.
        assert (forall cat, run (group c cat v) df = Ok (take (eq_mask col cat) sv))
          as Hg by (intros; now rewrite run_group, Ec, Ev).
        rewrite Hg. rewrite run_bind by auto with readonly. rewrite Hg.
        rewrite run_bind, run_scipy by auto with readonly.
        destruct (Hstat c v col _ _ Hc Hv Ec Hlen (Hg _) (Hg _)) as (u & p & Hs).
        rewrite Hs. eexists. reflexivity.
      * eexists. reflexivity.
Qed.

End MannWhitney.

(** ** The loops of [kruskal_wallis_test] *)

Section KruskalWallis.

Variable kruskal : list Series -> scipy_result.
Variable df : DataFrame.

Lemma kw_computed_at_least_three c v e : kw_computed kruskal df c v e -> at_least_three df c.
Proof.
  intros (col & gs & h & p & Hc & Hlen & _).
  exists (length (unique col)). unfold nunique. now rewrite Hc.
Qed.

Lemma readonly_kruskal_body c cats v r :
  readonly (kruskal_body kruskal c cats v r).
Proof. unfold kruskal_body. readonly_tac. Qed.

Lemma readonly_kruskal_field nums c r : readonly (kruskal_field kruskal nums c r).
Proof.
  unfold kruskal_field. apply readonly_bind; auto with readonly.
  intros col. cbv zeta. apply readonly_if; auto with readonly.
  apply readonly_for. intros. apply readonly_kruskal_body.
Qed.

Lemma readonly_kruskal_wallis_results cats nums :
  readonly (kruskal_wallis_results kruskal cats nums).
Proof.
  unfold kruskal_wallis_results. apply readonly_for.
  intros. apply readonly_kruskal_field.
Qed.

Lemma run_kruskal_body c cats v r :
  run (kruskal_body kruskal c cats v r) df =
  match run (groups_of c cats v) df with
  | Ok gs =>
      match kruskal gs with
      | Stat h p =>
          Ok (store_result c v [("H-statistic", h); ("p-value", p)] r)
      | Fails msg => Raise (ScipyError msg)
      end
  | Raise e => Raise e
  end.
Proof.
  unfold kruskal_body. rewrite run_bind by auto with readonly.
  destruct (run (groups_of c cats v) df) as [gs|e]; auto.
  rewrite run_bind, run_scipy by auto with readonly.
  destruct (kruskal gs); reflexivity.
Qed.

Lemma run_kruskal_field nums c r :
  run (kruskal_field kruskal nums c r) df =
  match dict_get c df with
  | Some col =>
      if Nat.leb 3 (length (unique col))
      then run (for_ nums (kruskal_body kruskal c (unique col)) r) df
      else Ok r
  | None => Raise (KeyError c)
  end.
Proof.
  unfold kruskal_field.
  rewrite run_bind, run_df_getitem by auto with readonly. unfold getitem.
  destruct (dict_get c df) as [col|]; auto.
  cbv zeta. destruct (Nat.leb 3 (length (unique col))); reflexivity.
Qed.

Lemma kruskal_inner_inv visited r c col nums r' :
  dict_get c df = Some col -> 3 <= length (unique col) ->
  results_inv (at_least_three df) (kw_computed kruskal df) visited r ->
  run (for_ nums (kruskal_body kruskal c (unique col)) r) df = Ok r' ->
  results_inv (at_least_three df) (kw_computed kruskal df) (visited ++ map (pair c) nums) r'.
Proof.
  intros Hc Hlen Hinv Hrun.
  apply (fun Hro Hstep H0 =>
           for_invariant _
             (fun vs s =>
                results_inv (at_least_three df) (kw_computed kruskal df) (visited ++ map (pair c) vs) s)
             df nums Hro Hstep [] r r' H0 Hrun).
  - intros; apply readonly_kruskal_body.
  - intros vs v s s' _ HP Hb. rewrite map_app, app_assoc. simpl.
    rewrite run_kruskal_body in Hb.
    destruct (run (groups_of c (unique col) v) df) as [gs|] eqn:Hgs; [|discriminate].
    destruct (kruskal gs) as [h p|msg] eqn:Hs; [|discriminate].
    inversion Hb; subst.
    apply results_inv_store; auto.
    exists col, gs, h, p. auto 10.
  - simpl. now rewrite app_nil_r.
Qed.

Lemma kruskal_field_inv cs nums c r r' :
  results_inv (at_least_three df) (kw_computed kruskal df) (pairs cs nums) r ->
  run (kruskal_field kruskal nums c r) df = Ok r' ->
  results_inv (at_least_three df) (kw_computed kruskal df) (pairs (cs ++ [c]) nums) r'.
Proof.
  intros Hinv Hrun. rewrite pairs_snoc. rewrite run_kruskal_field in Hrun.
  destruct (dict_get c df) as [col|] eqn:Hc; [|discriminate].
  destruct (Nat.leb_spec 3 (length (unique col))) as [Hlen|Hlen].
  - eapply kruskal_inner_inv; eauto.
  - inversion Hrun; subst. apply results_inv_skip; auto.
    intros c' v' Hin (n & Hn & Hge).
    apply in_map_iff in Hin. destruct Hin as (v0 & Heq & _).
    inversion Heq; subst. unfold nunique in Hn. rewrite Hc in Hn.
    inversion Hn. lia.
Qed.

(** When the loops are over, [results] holds the entries of the pairs whose
    categorical field has three categories or more, and nothing else. *)
Lemma kruskal_wallis_results_inv cats nums r :
  run (kruskal_wallis_results kruskal cats nums) df = Ok r ->
  results_inv (at_least_three df) (kw_computed kruskal df) (pairs cats nums) r.
Proof.
  intros Hrun. unfold kruskal_wallis_results in Hrun.
  apply (fun Hro Hstep H0 =>
           for_invariant _
             (fun cs s => results_inv (at_least_three df) (kw_computed kruskal df) (pairs cs nums) s)
             df cats Hro Hstep [] [] r H0 Hrun).
  - intros; apply readonly_kruskal_field.
  - intros cs c s s' _ HP Hb. eapply kruskal_field_inv; eauto.
  - apply results_inv_nil.
Qed.

(** The loops return, scipy having returned on the groups of every pair it
    was given, or they raise what scipy raised on the groups of a pair. *)
Lemma kruskal_wallis_results_outcome cats nums :
  (forall c, In c cats -> dict_get c df <> None) ->
  (forall v, In v nums -> dict_get v df <> None) ->
  (exists r,
     run (kruskal_wallis_results kruskal cats nums) df = Ok r /\
     forall c v col gs,
       In c cats -> In v nums ->
       dict_get c df = Some col -> 3 <= length (unique col) ->
       run (groups_of c (unique col) v) df = Ok gs ->
       exists h p, kruskal gs = Stat h p) \/
  (exists c v col gs msg,
     In c cats /\ In v nums /\
     dict_get c df = Some col /\ 3 <= length (unique col) /\
     run (groups_of c (unique col) v) df = Ok gs /\
     kruskal gs = Fails msg /\
     run (kruskal_wallis_results kruskal cats nums) df = Raise (ScipyError msg)).
Proof.
  intros Hcats Hnums. unfold kruskal_wallis_results.
  destruct (for_outcome (kruskal_field kruskal nums)
    (fun c => forall v col gs, In v nums ->
       dict_get c df = Some col -> 3 <= length (unique col) ->
       run (groups_of c (unique col) v) df = Ok gs ->
       exists h p, kruskal gs = Stat h p)
    (fun c e => exists v col gs msg, In v nums /\
       dict_get c df = Some col /\ 3 <= length (unique col) /\
       run (groups_of c (unique col) v) df = Ok gs /\
       kruskal gs = Fails msg /\ e = ScipyError msg)
    df cats) with (s := @nil (string * dict string row))
    as [(r & Hr & Hall)|(c & e & Hc & He & Hbad)].
  - intros; apply readonly_kruskal_field.
  - intros c r Hc. rewrite run_kruskal_field.
    destruct (dict_get c df) as [col|] eqn:Ec; [|now apply Hcats in Hc].
    destruct (Nat.leb_spec 3 (length (unique col))) as [Hlen|Hlen].
    + destruct (for_outcome (kruskal_body kruskal c (unique col))
        (fun v => forall gs, run (groups_of c (unique col) v) df = Ok gs ->
           exists h p, kruskal gs = Stat h p)
        (fun v e => exists gs msg,
           run (groups_of c (unique col) v) df = Ok gs /\
           kruskal gs = Fails msg /\ e = ScipyError msg)
        df nums) with (s := r)
        as [(r' & Hr' & Hall)|(v & e & Hv & He & gs & msg & Hgs & Hs & ->)].
      * intros; apply readonly_kruskal_body.
      * intros v s Hv. rewrite run_kruskal_body.
        destruct (dict_get v df) as [sv|] eqn:Ev; [|now apply Hnums in Hv].
        rewrite (run_groups_of c (unique col) v df col sv Ec Ev).
        destruct (kruskal _) as [h p|msg] eqn:Hs.
        -- left. eexists. split; [reflexivity|].
           intros gs Hgs. inversion Hgs; subst. eauto.
        -- right. eexists. split; [reflexivity|]. eauto.
      * left. exists r'. split; auto.
        intros v col' gs Hv Hcol' _ Hgs. inversion Hcol'; subst col'.
        rewrite Forall_forall in Hall. eapply Hall; eauto.
      * right. exists (ScipyError msg). split; auto.
        exists v, col, gs, msg. auto 10.
    + left. exists r. split; auto.
      intros v col' gs _ Hcol' Hge. inversion Hcol'; subst col'. lia.
  - left. exists r. split; auto.
    intros c v col gs Hc Hv Hcol Hlen Hgs.
    rewrite Forall_forall in Hall. eapply Hall; eauto.
  - right. destruct Hbad as (v & col & gs & msg & Hv & Hcol & Hlen & Hgs & Hs & ->).
    exists c, v, col, gs, msg. auto 10.
Qed.

End KruskalWallis.

(** ** Building the table *)

Lemma distinct_snoc {K : Type} `{EqKey K} (l : list K) (k : K) :
  distinct (l ++ [k]) = add_key (distinct l) k.
Proof. unfold distinct. now rewrite fold_left_app. Qed.

Lemma fold_add_key_present {K : Type} `{EqKey K} (l acc : list K) :
  (forall k, In k l -> In k acc) -> fold_left add_key l acc = acc.
Proof.
  induction l as [|k l IH]; intros Hin; simpl; auto.
  assert (add_key acc k = acc) as ->.
  { unfold add_key. destruct (existsb (key_eqb k) acc) eqn:E; auto.
    assert (In k acc) as Hk by (apply Hin; now left).
    apply existsb_key_In in Hk. congruence. }
  apply IH. intros k' Hk'. apply Hin. now right.
Qed.

(** Rows that all have the keys [ks] give a table with the columns [ks]. *)
Lemma union_keys_uniform (rows : list row) (ks : list string) :
  rows <> [] -> NoDup ks ->
  (forall r, In r rows -> dict_keys r = ks) ->
  union_keys rows = ks.
Proof.
  intros Hne Hnd Hall. unfold union_keys.
  destruct rows as [|r0 rows]; [congruence|]. simpl.
  rewrite (Hall r0) by now left.
  rewrite fold_add_key_fresh by (simpl; auto). simpl.
  assert (forall rs : list row, (forall r, In r rs -> dict_keys r = ks) ->
            fold_left (fun acc (r : row) => fold_left add_key (dict_keys r) acc) rs ks
            = ks)
    as Hfold.
  { induction rs as [|r rs IH]; intros Hrs; simpl; auto.
    rewrite (Hrs r) by now left.
    rewrite fold_add_key_present by auto.
    apply IH. intros r' Hr'. apply Hrs. now right. }
  apply Hfold. intros r Hr. apply Hall. now right.
Qed.

Lemma DataFrame_T_index {L : Type} (d : dict L row) :
  index (DataFrame_T d) = dict_keys d.
Proof. reflexivity. Qed.

(** The row of a key is the entry of that key, read along the columns. *)
Lemma DataFrame_T_row {L : Type} `{EqKey L} (d : dict L row) (k : L) :
  Table_row (DataFrame_T d) k =
  match dict_get k d with
  | Some e => Some (map (fun c => dict_get_or c nan e) (columns (DataFrame_T d)))
  | None => None
  end.
Proof.
  unfold Table_row, DataFrame_T. simpl.
  generalize (union_keys (map snd d)) as cols. intros cols.
  induction d as [|[k' e'] d IH]; simpl; auto.
  destruct (key_eqb k k'); auto.
Qed.

Lemma DataFrame_T_columns {L : Type} (d : dict L row) (ks : list string) :
  d <> [] -> NoDup ks ->
  (forall k e, In (k, e) d -> dict_keys e = ks) ->
  columns (DataFrame_T d) = ks.
Proof.
  intros Hne Hnd Hall. unfold DataFrame_T. simpl.
  apply union_keys_uniform; auto.
  - destruct d; simpl; congruence.
  - intros r Hr. apply in_map_iff in Hr. destruct Hr as ([k e] & <- & Hin).
    eapply Hall; eauto.
Qed.

Lemma dict_get_Some_In {K V : Type} `{EqKey K} (d : dict K V) (k : K) (v : V) :
  dict_get k d = Some v -> In (k, v) d.
Proof.
  induction d as [|[k' v'] d IH]; simpl; [discriminate|].
  destruct (key_eqb_spec k k') as [->|Hne].
  - intros Heq. inversion Heq. now left.
  - intros Hget. right. auto.
Qed.

Lemma In_dict_get {K V : Type} `{EqKey K} (d : dict K V) (k : K) (v : V) :
  NoDup (dict_keys d) -> In (k, v) d -> dict_get k d = Some v.
Proof.
  induction d as [|[k' v'] d IH]; simpl; [tauto|].
  intros Hnd [Heq|Hin].
  - inversion Heq; subst. now rewrite key_eqb_refl.
  - inversion Hnd as [|? ? Hnin Hnd']; subst.
    destruct (key_eqb_spec k k') as [->|Hne]; auto.
    exfalso. apply Hnin. change (In (fst (k', v)) (map fst d)). now apply in_map.
Qed.

(** *** The dictionary comprehension of the rank tests *)

Section ResultItems.

Variable results : results_t.
Variable df : DataFrame.

Lemma items_inv_set visited items c v inner :
  items_inv results visited items -> dict_get c results = Some inner ->
  items_inv results (visited ++ [(c, v)]) (dict_set (c, v) (dict_get_or v [] inner) items).
Proof.
  intros [Hkeys Hval] Hc. split.
  - now rewrite dict_keys_set, distinct_snoc, Hkeys.
  - intros c' v' e Hget. rewrite dict_get_set in Hget.
    destruct (key_eqb_spec (c, v) (c', v')) as [Heq|Hne].
    + inversion Heq; subst. inversion Hget; subst. eauto.
    + eauto.
Qed.

Lemma run_result_item c v items :
  run (result_item results c v items) df =
  match dict_get c results with
  | Some inner => Ok (dict_set (c, v) (dict_get_or v [] inner) items)
  | None => Raise (KeyError c)
  end.
Proof. unfold result_item. destruct (dict_get c results); reflexivity. Qed.

Lemma result_item_returns c v items :
  dict_get c results <> None ->
  exists items', run (result_item results c v items) df = Ok items'.
Proof.
  intros Hc. rewrite run_result_item.
  destruct (dict_get c results); [eexists; reflexivity | congruence].
Qed.

(** A field that is no key of [results] makes the comprehension raise
    [KeyError], as soon as there is a numerical field. *)
Lemma result_items_raises cats nums c :
  nums <> [] -> In c cats -> dict_get c results = None ->
  exists key,
    run (result_items results cats nums) df = Raise (KeyError key) /\
    In key cats /\ dict_get key results = None.
Proof.
  intros Hnums Hc Hnone. unfold result_items.
  generalize (@nil ((string * string) * row)) as items.
  induction cats as [|c0 cats IH]; intros items; [destruct Hc|].
  rewrite run_for_cons by readonly_tac.
  destruct (dict_get c0 results) as [inner|] eqn:E0.
  - destruct (for_returns (result_item results c0) df nums) with (s := items)
      as [items' Hitems'].
    + intros; apply readonly_result_item.
    + intros v s _. apply result_item_returns. congruence.
    + rewrite Hitems'.
      destruct Hc as [->|Hc]; [congruence|].
      destruct (IH Hc items') as (key & Hrun & Hin & Hkey).
      exists key. simpl; auto.
  - destruct nums as [|v nums]; [congruence|].
    exists c0. split; [|simpl; auto].
    rewrite run_for_cons by readonly_tac.
    now rewrite run_result_item, E0.
Qed.

Lemma result_items_inv cats nums items :
  run (result_items results cats nums) df = Ok items ->
  items_inv results (pairs cats nums) items.
Proof.
  intros Hrun. unfold result_items in Hrun.
  apply (fun Hro Hstep H0 =>
           for_invariant _ (fun cs s => items_inv results (pairs cs nums) s)
             df cats Hro Hstep [] [] items H0 Hrun).
  - intros; readonly_tac.
  - intros cs c s s' _ HP Hb. rewrite pairs_snoc.
    apply (fun Hro Hstep H0 =>
             for_invariant _
               (fun vs t => items_inv results (pairs cs nums ++ map (pair c) vs) t)
               df nums Hro Hstep [] s s' H0 Hb).
    + intros; readonly_tac.
    + intros vs v t t' _ HPt Ht. rewrite map_app, app_assoc. simpl.
      rewrite run_result_item in Ht.
      destruct (dict_get c results) as [inner|] eqn:Ec; [|discriminate].
      inversion Ht; subst. now apply items_inv_set.
    + simpl. now rewrite app_nil_r.
  - split; [reflexivity|]. simpl. discriminate.
Qed.

(** When every field is a key of [results] the comprehension returns. *)
Lemma result_items_returns cats nums :
  (forall c, In c cats -> dict_get c results <> None) ->
  exists items, run (result_items results cats nums) df = Ok items.
Proof.
  intros Hcats. unfold result_items. apply for_returns.
  - intros; readonly_tac.
  - intros c s Hc. apply for_returns.
    + intros; readonly_tac.
    + intros v t _. apply result_item_returns. auto.
Qed.

End ResultItems.

(** ** The loop of [anova] *)

Section Anova.

Variable f_oneway : list Series -> scipy_result.
Variable df : DataFrame.
Variable c : string.

Lemma readonly_anova_body v r : readonly (anova_body f_oneway c v r).
Proof. unfold anova_body. readonly_tac. Qed.

Lemma readonly_anova_results nums : readonly (anova_results f_oneway nums c).
Proof. unfold anova_results. apply readonly_for. intros. apply readonly_anova_body. Qed.

Lemma run_anova_body v r :
  run (anova_body f_oneway c v r) df =
  match dict_get c df with
  | Some col =>
      match run (groups_of c (unique col) v) df with
      | Ok gs =>
          match f_oneway gs with
          | Stat f p => Ok (dict_set v [("F-Statistics", f); ("p-value", p)] r)
          | Fails msg => Raise (ScipyError msg)
          end
      | Raise e => Raise e
      end
  | None => Raise (KeyError c)
  end.
Proof.
  unfold anova_body.
  rewrite run_bind, run_df_getitem by auto with readonly. unfold getitem.
  destruct (dict_get c df) as [col|]; auto.
  rewrite run_bind by auto with readonly.
  destruct (run (groups_of c (unique col) v) df) as [gs|e]; auto.
  rewrite run_bind, run_scipy by auto with readonly.
  destruct (f_oneway gs); reflexivity.
Qed.

(** When the loop is over, [results] has one entry for each numerical
    field, in the order of their first occurrence. *)
Lemma anova_results_inv nums r :
  run (anova_results f_oneway nums c) df = Ok r -> anova_inv f_oneway df c nums r.
Proof.
  intros Hrun. unfold anova_results in Hrun.
  apply (fun Hro Hstep H0 =>
           for_invariant _ (anova_inv f_oneway df c) df nums Hro Hstep [] [] r H0 Hrun).
  - intros; apply readonly_anova_body.
  - intros vs v s s' _ [Hkeys Hval] Hb. rewrite run_anova_body in Hb.
    destruct (dict_get c df) as [col|] eqn:Hc; [|discriminate].
    destruct (run (groups_of c (unique col) v) df) as [gs|] eqn:Hgs; [|discriminate].
    destruct (f_oneway gs) as [f p|msg] eqn:Hs; [|discriminate].
    inversion Hb; subst. split.
    + now rewrite dict_keys_set, distinct_snoc, Hkeys.
    + intros v' e Hget. rewrite dict_get_set in Hget.
      destruct (key_eqb_spec v v') as [<-|Hne]; auto.
      inversion Hget; subst. exists col, gs, f, p. auto.
  - split; [reflexivity|]. simpl. discriminate.
Qed.

(** The loop returns, scipy having returned on the groups of every
    numerical field, or it raises what scipy raised on those of a field. *)
Lemma anova_results_outcome nums col :
  dict_get c df = Some col ->
  (forall v, In v nums -> dict_get v df <> None) ->
  (exists r,
     run (anova_results f_oneway nums c) df = Ok r /\
     forall v gs, In v nums ->
       run (groups_of c (unique col) v) df = Ok gs ->
       exists f p, f_oneway gs = Stat f p) \/
  (exists v gs msg,
     In v nums /\
     run (groups_of c (unique col) v) df = Ok gs /\
     f_oneway gs = Fails msg /\
     run (anova_results f_oneway nums c) df = Raise (ScipyError msg)).
Proof.
  intros Hc Hnums. unfold anova_results.
  destruct (for_outcome (anova_body f_oneway c)
    (fun v => forall gs, run (groups_of c (unique col) v) df = Ok gs ->
       exists f p, f_oneway gs = Stat f p)
    (fun v e => exists gs msg,
       run (groups_of c (unique col) v) df = Ok gs /\
       f_oneway gs = Fails msg /\ e = ScipyError msg)
    df nums) with (s := @nil (string * row))
    as [(r & Hr & Hall)|(v & e & Hv & He & gs & msg & Hgs & Hs & ->)].
  - intros; apply readonly_anova_body.
  - intros v s Hv. rewrite run_anova_body, Hc.
    destruct (dict_get v df) as [sv|] eqn:Ev; [|now apply Hnums in Hv].
    rewrite (run_groups_of c (unique col) v df col sv Hc Ev).
    destruct (f_oneway _) as [f p|msg] eqn:Hs.
    + left. eexists. split; [reflexivity|].
      intros gs Hgs. inversion Hgs; subst. eauto.
    + right. eexists. split; [reflexivity|]. eauto.
  - left. exists r. split; auto.
    intros v gs Hv Hgs. rewrite Forall_forall in Hall. eapply Hall; eauto.
  - right. exists v, gs, msg. auto.
Qed.

End Anova.

Lemma readonly_mann_whitney_test mannwhitneyu cats nums :
  readonly (mann_whitney_test mannwhitneyu cats nums).
Proof.
  unfold mann_whitney_test. apply readonly_bind.
  - apply readonly_mann_whitney_results.
  - intros results. readonly_tac.
Qed.

Lemma readonly_kruskal_wallis_test kruskal cats nums :
  readonly (kruskal_wallis_test kruskal cats nums).
Proof.
  unfold kruskal_wallis_test. apply readonly_bind.
  - apply readonly_kruskal_wallis_results.
  - intros [|kv results]; readonly_tac.
Qed.

Lemma readonly_anova f_oneway nums c : readonly (anova f_oneway nums c).
Proof.
  unfold anova. apply readonly_bind.
  - apply readonly_anova_results.
  - intros results. readonly_tac.
Qed.

Lemma run_mann_whitney_test mannwhitneyu cats nums df :
  run (mann_whitney_test mannwhitneyu cats nums) df =
  match run (mann_whitney_results mannwhitneyu cats nums) df with
  | Ok results =>
      match run (result_items results cats nums) df with
      | Ok items =>
          Ok (style_map (DataFrame_T items) highlight_significant "p-value")
      | Raise e => Raise e
      end
  | Raise e => Raise e
  end.
Proof.
  unfold mann_whitney_test.
  rewrite run_bind by apply readonly_mann_whitney_results.
  destruct (run (mann_whitney_results mannwhitneyu cats nums) df) as [results|e]; auto.
  rewrite run_bind by auto with readonly.
  destruct (run (result_items results cats nums) df); reflexivity.
Qed.

Lemma run_kruskal_wallis_test kruskal cats nums df :
  run (kruskal_wallis_test kruskal cats nums) df =
  match run (kruskal_wallis_results kruskal cats nums) df with
  | Ok [] => Ok (Unstyled empty_frame)
  | Ok results =>
      match run (result_items results cats nums) df with
      | Ok items =>
          Ok (Styled (style_map (DataFrame_T items) highlight_significant "p-value"))
      | Raise e => Raise e
      end
  | Raise e => Raise e
  end.
Proof.
  unfold kruskal_wallis_test.
  rewrite run_bind by apply readonly_kruskal_wallis_results.
  destruct (run (kruskal_wallis_results kruskal cats nums) df) as [[|kv results]|e]; auto.
  rewrite run_bind by auto with readonly.
  destruct (run (result_items (kv :: results) cats nums) df); reflexivity.
Qed.

Lemma run_anova f_oneway nums c df :
  run (anova f_oneway nums c) df =
  match run (anova_results f_oneway nums c) df with
  | Ok results =>
      Ok (style_map (DataFrame_T results) highlight_significant "p-value")
  | Raise e => Raise e
  end.
Proof.
  unfold anova. rewrite run_bind by apply readonly_anova_results.
  destruct (run (anova_results f_oneway nums c) df); reflexivity.
Qed.

(** What [kruskal_wallis_test] does when no supplied field has three
    categories: it returns the empty frame. *)
Lemma kruskal_wallis_no_field_applies kruskal df cats nums :
  (forall c, In c cats -> exists n, nunique df c = Some n /\ n < 3) ->
  run (kruskal_wallis_test kruskal cats nums) df = Ok (Unstyled empty_frame).
Proof.
  intros Hcats. rewrite run_kruskal_wallis_test.
  assert (run (kruskal_wallis_results kruskal cats nums) df = Ok []) as ->; auto.
  unfold kruskal_wallis_results.
  induction cats as [|c cats IH]; auto.
  rewrite run_for_cons by apply readonly_kruskal_field.
  rewrite run_kruskal_field.
  destruct (Hcats c) as (n & Hn & Hlt); [now left|].
  unfold nunique in Hn. destruct (dict_get c df) as [col|]; [|discriminate].
  inversion Hn; subst.
  destruct (Nat.leb_spec 3 (length (unique col))); [lia|].
  apply IH. intros c' Hc'. apply Hcats. now right.
Qed.

(** ** The rows of a table that was built *)

Lemma DataFrame_T_row_pair {L : Type} `{EqKey L} (d : dict L row) (k : L)
    (k1 k2 : string) (x1 x2 : float) :
  k1 <> k2 ->
  (forall k' e', In (k', e') d -> dict_keys e' = [k1; k2]) ->
  dict_get k d = Some [(k1, x1); (k2, x2)] ->
  columns (DataFrame_T d) = [k1; k2] /\
  Table_row (DataFrame_T d) k = Some [x1; x2].
Proof.
  intros Hne Hall Hget.
  assert (columns (DataFrame_T d) = [k1; k2]) as Hcols.
  { apply DataFrame_T_columns; auto.
    - destruct d; [discriminate | congruence].
    - constructor; [simpl; intuition congruence|]. constructor; [tauto | constructor]. }
  split; auto.
  rewrite DataFrame_T_row, Hget, Hcols. simpl. unfold dict_get_or. simpl.
  rewrite !String.eqb_refl.
  destruct (String.eqb_spec k2 k1); [congruence | reflexivity].
Qed.

Section Rows.

Variable applies : string -> Prop.
Variable computed : string -> string -> row -> Prop.
Hypothesis computed_applies : forall c v e, computed c v e -> applies c.

(** The items of the comprehension, when it returns: one for each pair of
    the two loops, each the entry computed for its pair. *)
Lemma result_items_rows results df cats nums items :
  results_inv applies computed (pairs cats nums) results ->
  run (result_items results cats nums) df = Ok items ->
  dict_keys items = distinct (pairs cats nums) /\
  (forall c v, In c cats -> In v nums ->
     applies c /\ exists e, computed c v e /\ dict_get (c, v) items = Some e) /\
  (forall k e, In (k, e) items -> computed (fst k) (snd k) e).
Proof.
  intros Hinv Hrun.
  destruct (result_items_inv results df cats nums items Hrun) as [Hkeys Hval].
  assert (forall c v e', dict_get (c, v) items = Some e' ->
            applies c /\ computed c v e') as Hitem.
  { intros c v e' Hget.
    assert (In (c, v) (pairs cats nums)) as Hp.
    { rewrite <- (distinct_In (pairs cats nums)), <- Hkeys.
      apply dict_get_In. congruence. }
    destruct (Hval c v e' Hget) as (inner & Hinner & ->).
    assert (applies c) as Happ by (eapply results_inv_key; eauto).
    split; auto.
    destruct Hinv as (_ & _ & Hsound & Hcompl).
    destruct (Hcompl c v Hp Happ) as [e He].
    pose proof He as He'. apply Hsound in He'.
    unfold entry_of in He. rewrite Hinner in He.
    unfold dict_get_or, row in *. rewrite He. tauto. }
  split; [exact Hkeys|]. split.
  - intros c v Hc Hv.
    assert (In (c, v) (dict_keys items)) as Hin.
    { rewrite Hkeys, distinct_In. now apply in_pairs. }
    apply dict_get_In in Hin.
    destruct (dict_get (c, v) items) as [e'|] eqn:Hget; [|congruence].
    destruct (Hitem c v e' Hget). eauto.
  - intros [c v] e Hin. simpl.
    apply In_dict_get in Hin; [|rewrite Hkeys; apply distinct_NoDup].
    now apply Hitem in Hin.
Qed.

End Rows.

(** The table [mann_whitney_test] returns, when it returns one: a row for
    every supplied pair, in the order of the two loops, with the statistic
    and the p-value computed for the pair. *)
Lemma mann_whitney_test_rows mannwhitneyu df cats nums s :
  run (mann_whitney_test mannwhitneyu cats nums) df = Ok s ->
  index (styler_data s) = distinct (pairs cats nums) /\
  (forall c v, In c cats -> In v nums ->
     nunique df c = Some 2 /\
     exists u p,
       mw_computed mannwhitneyu df c v [("U-statistic", u); ("p-value", p)] /\
       Table_row (styler_data s) (c, v) = Some [u; p]).
Proof.
  rewrite run_mann_whitney_test. intros Hrun.
  destruct (run (mann_whitney_results mannwhitneyu cats nums) df)
    as [results|] eqn:Hres; [|discriminate].
  destruct (run (result_items results cats nums) df) as [items|] eqn:Hitems;
    [|discriminate].
  inversion Hrun; subst s. simpl.
  apply mann_whitney_results_inv in Hres.
  destruct (result_items_rows _ _ (mw_computed_binary mannwhitneyu df)
              _ _ _ _ _ Hres Hitems) as (Hkeys & Hrows & Hall).
  split; [exact Hkeys|].
  intros c v Hc Hv. destruct (Hrows c v Hc Hv) as (Hbin & e & He & Hget).
  split; [exact Hbin|].
  pose proof He as (col & g1 & g2 & u & p & _ & _ & _ & _ & _ & ->).
  exists u, p. split; auto.
  eapply DataFrame_T_row_pair; eauto; [discriminate|].
  intros k' e' Hin. apply Hall in Hin.
  destruct Hin as (? & ? & ? & ? & ? & _ & _ & _ & _ & _ & ->). reflexivity.
Qed.

(** The table [kruskal_wallis_test] returns, when it returns one: the empty
    frame, or a row for every supplied pair, all of fields with three
    categories or more. *)
Lemma kruskal_wallis_test_rows kruskal df cats nums out :
  run (kruskal_wallis_test kruskal cats nums) df = Ok out ->
  out = Unstyled empty_frame \/
  (index (table_of out) = distinct (pairs cats nums) /\
   forall c v, In c cats -> In v nums ->
     at_least_three df c /\
     exists h p,
       kw_computed kruskal df c v [("H-statistic", h); ("p-value", p)] /\
       Table_row (table_of out) (c, v) = Some [h; p]).
Proof.
  rewrite run_kruskal_wallis_test. intros Hrun.
  destruct (run (kruskal_wallis_results kruskal cats nums) df)
    as [results|] eqn:Hres; [|discriminate].
  destruct results as [|kv results]; [inversion Hrun; auto|].
  destruct (run (result_items (kv :: results) cats nums) df) as [items|] eqn:Hitems;
    [|discriminate].
  inversion Hrun; subst out. simpl. right.
  apply kruskal_wallis_results_inv in Hres.
  destruct (result_items_rows _ _ (kw_computed_at_least_three kruskal df)
              _ _ _ _ _ Hres Hitems) as (Hkeys & Hrows & Hall).
  split; [exact Hkeys|].
  intros c v Hc Hv. destruct (Hrows c v Hc Hv) as (Happ & e & He & Hget).
  split; [exact Happ|].
  pose proof He as (col & gs & h & p & _ & _ & _ & _ & ->).
  exists h, p. split; auto.
  eapply DataFrame_T_row_pair; eauto; [discriminate|].
  intros k' e' Hin. apply Hall in Hin.
  destruct Hin as (? & ? & ? & ? & _ & _ & _ & _ & ->). reflexivity.
Qed.

Lemma has_empty_group_In (gs : list Series) : In [] gs -> has_empty_group gs = true.
Proof.
  intros Hin. unfold has_empty_group. apply existsb_exists. exists []. auto.
Qed.

(** ** The annotation *)

Lemma nth_error_combine {A B : Type} (l : list A) (l' : list B) j a b :
  nth_error l j = Some a -> nth_error l' j = Some b ->
  nth_error (combine l l') j = Some (a, b).
Proof.
  revert l' j. induction l as [|x l IH]; intros l' j Ha Hb.
  - destruct j; discriminate.
  - destruct l' as [|y l']; [destruct j; discriminate|].
    destruct j as [|j]; simpl in *.
    + congruence.
    + auto.
Qed.

Lemma highlight_significant_yellow (val : float) :
  highlight_significant val = "background-color: yellow" <->
  PrimFloat.ltb val 0.05 = true.
Proof.
  unfold highlight_significant. destruct (PrimFloat.ltb val 0.05).
  - tauto.
  - split; discriminate.
Qed.

Lemma highlight_significant_cases (val : float) :
  highlight_significant val = "background-color: yellow" \/
  highlight_significant val = "".
Proof. unfold highlight_significant. destruct (PrimFloat.ltb val 0.05); auto. Qed.

(** The three functions annotate the table they built with
    [highlight_significant] on the column [p-value]. *)
Lemma engines_annotate_p_value mannwhitneyu kruskal f_oneway df cats nums c :
  (forall s, run (mann_whitney_test mannwhitneyu cats nums) df = Ok s ->
     styler_func s = highlight_significant /\ styler_subset s = "p-value") /\
  (forall s, run (kruskal_wallis_test kruskal cats nums) df = Ok (Styled s) ->
     styler_func s = highlight_significant /\ styler_subset s = "p-value") /\
  (forall s, run (anova f_oneway nums c) df = Ok s ->
     styler_func s = highlight_significant /\ styler_subset s = "p-value").
Proof.
  split; [|split]; intros s.
  - rewrite run_mann_whitney_test.
    destruct (run (mann_whitney_results _ _ _) df) as [results|]; [|discriminate].
    destruct (run (result_items _ _ _) df); [|discriminate].
    intros Heq. inversion Heq. auto.
  - rewrite run_kruskal_wallis_test.
    destruct (run (kruskal_wallis_results _ _ _) df) as [[|kv results]|];
      try discriminate.
    destruct (run (result_items _ _ _) df); [|discriminate].
    intros Heq. inversion Heq. auto.
  - rewrite run_anova.
    destruct (run (anova_results _ _ _) df); [|discriminate].
    intros Heq. inversion Heq. auto.
Qed.

(** The styles of the example: only the first p-value is below 0.05;
    0.05 itself and NaN are not, and no statistic is marked. *)
Example example_table_css :
  css (style_map example_table highlight_significant "p-value")
  = Ok [[""; "background-color: yellow"]; [""; ""]; [""; ""]].
Proof. reflexivity. Qed.

(** ** Equality of floats and of labels *)

Lemma SFeqb_true (x y : spec_float) :
  SFeqb x y = true <->
  match x, y with
  | S754_zero _, S754_zero _ => True
  | S754_infinity s1, S754_infinity s2 => s1 = s2
  | S754_finite s1 m1 e1, S754_finite s2 m2 e2 => s1 = s2 /\ m1 = m2 /\ e1 = e2
  | _, _ => False
  end.
Proof.
  assert (forall m1 m2, Pos.compare_cont Eq m1 m2 = Eq <-> m1 = m2) as Hpos.
  { intros m1 m2. apply Pos.compare_eq_iff. }
  assert (forall c, CompOpp c = Eq <-> c = Eq) as Hopp.
  { intros []; simpl; split; congruence. }
  unfold SFeqb.
  destruct x as [s1|s1| |s1 m1 e1], y as [s2|s2| |s2 m2 e2]; simpl;
    try (split; [discriminate | tauto]); try tauto;
    try (destruct s1; split; (discriminate || tauto));
    try (destruct s2; split; (discriminate || tauto)).
  - destruct s1, s2; split; congruence.
  - destruct s1, s2; try (split; [discriminate | intros (? & _); discriminate]);
      destruct (Z.compare_spec e1 e2) as [He|He|He];
      try (split; [discriminate | intros (_ & _ & ?); lia]); subst.
    + destruct (Pos.compare_cont Eq m1 m2) eqn:E; simpl;
        try (split; [discriminate | intros (_ & Hm & _); apply Hpos in Hm; congruence]).
      apply Hpos in E. subst. tauto.
    + destruct (Pos.compare_cont Eq m1 m2) eqn:E;
        try (split; [discriminate | intros (_ & Hm & _); apply Hpos in Hm; congruence]).
      apply Hpos in E. subst. tauto.
Qed.

Lemma float_eqb_sym (x y : float) : PrimFloat.eqb x y = PrimFloat.eqb y x.
Proof.
  rewrite !FloatAxioms.eqb_spec.
  destruct (SFeqb (Prim2SF x) (Prim2SF y)) eqn:E1;
    destruct (SFeqb (Prim2SF y) (Prim2SF x)) eqn:E2; auto.
  - apply SFeqb_true in E1. apply not_true_iff_false in E2. exfalso. apply E2.
    apply SFeqb_true.
    destruct (Prim2SF x), (Prim2SF y); intuition congruence.
  - apply SFeqb_true in E2. apply not_true_iff_false in E1. exfalso. apply E1.
    apply SFeqb_true.
    destruct (Prim2SF x), (Prim2SF y); intuition congruence.
Qed.

Lemma float_eqb_trans (x y z : float) :
  PrimFloat.eqb x y = true -> PrimFloat.eqb y z = true -> PrimFloat.eqb x z = true.
Proof.
  rewrite !FloatAxioms.eqb_spec, !SFeqb_true.
  destruct (Prim2SF x), (Prim2SF y), (Prim2SF z); intuition congruence.
Qed.

Lemma value_eqb_sym (a b : value) : value_eqb a b = value_eqb b a.
Proof.
  destruct a, b; simpl; auto using String.eqb_sym, float_eqb_sym.
Qed.

Lemma value_eqb_trans (a b c : value) :
  value_eqb a b = true -> value_eqb b c = true -> value_eqb a c = true.
Proof.
  destruct a, b, c; simpl; try discriminate.
  - rewrite !String.eqb_eq. congruence.
  - apply float_eqb_trans.
Qed.

Lemma value_eqb_labelled (a b : value) : value_eqb a b = true -> labelled a = true.
Proof.
  intros H. unfold labelled. apply (value_eqb_trans a b a); auto.
  now rewrite value_eqb_sym.
Qed.

Lemma value_eqb_same_key (a b : value) : value_eqb a b = true -> same_key a b = true.
Proof. destruct a, b; simpl; auto. intros ->. reflexivity. Qed.

Lemma same_key_value_eqb (a b : value) :
  labelled a = true -> same_key a b = true -> value_eqb a b = true.
Proof.
  destruct a as [s|x], b as [t|y]; simpl; auto.
  unfold labelled, is_nan. simpl. intros ->. simpl. now rewrite orb_false_r.
Qed.

Lemma same_key_refl (a : value) : same_key a a = true.
Proof.
  destruct a as [s|x]; simpl; [apply String.eqb_refl|].
  unfold is_nan. destruct (PrimFloat.eqb x x); reflexivity.
Qed.

Lemma same_key_sym (a b : value) : same_key a b = same_key b a.
Proof.
  destruct a, b; simpl; auto using String.eqb_sym.
  rewrite float_eqb_sym. f_equal. apply andb_comm.
Qed.

(** ** The categories of a column *)

Lemma distinct_keys_snoc (l : list value) (x : value) :
  distinct_keys l -> (forall a, In a l -> same_key a x = false) ->
  distinct_keys (l ++ [x]).
Proof.
  induction l as [|a l IH]; simpl; intros Hd Hx.
  - split; [tauto | exact I].
  - destruct Hd as [Ha Hd]. split.
    + intros b Hb. apply in_app_iff in Hb. destruct Hb as [Hb|[<-|[]]]; auto.
    + apply IH; auto.
Qed.

Lemma unique_from_distinct (seen : list value) (s : Series) :
  distinct_keys seen -> distinct_keys (unique_from seen s).
Proof.
  revert seen. induction s as [|x s IH]; intros seen Hd; simpl; auto.
  destruct (existsb (same_key x) seen) eqn:E; auto.
  apply IH. apply distinct_keys_snoc; auto.
  intros a Ha. rewrite same_key_sym.
  destruct (same_key x a) eqn:Exa; auto.
  assert (existsb (same_key x) seen = true) by (apply existsb_exists; eauto).
  congruence.
Qed.

Lemma unique_from_seen (seen : list value) (s : Series) (y : value) :
  In y seen -> In y (unique_from seen s).
Proof.
  revert seen. induction s as [|x s IH]; intros seen Hy; simpl; auto.
  destruct (existsb (same_key x) seen); apply IH; auto.
  apply in_app_iff. now left.
Qed.

Lemma unique_from_covers (seen : list value) (s : Series) (x : value) :
  In x s -> exists y, In y (unique_from seen s) /\ same_key x y = true.
Proof.
  revert seen. induction s as [|x0 s IH]; intros seen Hx; [destruct Hx|].
  simpl. destruct Hx as [->|Hx].
  - destruct (existsb (same_key x) seen) eqn:E.
    + apply existsb_exists in E. destruct E as (y & Hy & Hxy).
      exists y. split; auto. now apply unique_from_seen.
    + exists x. split; [|apply same_key_refl].
      apply unique_from_seen. apply in_app_iff. right. now left.
  - destruct (existsb (same_key x0) seen); now apply IH.
Qed.

(** The categories are pairwise distinct, and every value of the column is
    one of them. *)
Lemma unique_distinct (s : Series) : distinct_keys (unique s).
Proof. apply unique_from_distinct. exact I. Qed.

Lemma unique_covers (s : Series) (x : value) :
  In x s -> exists y, In y (unique s) /\ same_key x y = true.
Proof. apply unique_from_covers. Qed.

(** ** Missing labels *)

Lemma take_eq_mask_unlabelled (col s : Series) (cat : value) :
  labelled cat = false -> take (eq_mask col cat) s = [].
Proof.
  intros Hcat. revert s. induction col as [|x col IH]; intros s; simpl; auto.
  destruct s as [|y s]; auto.
  destruct (value_eqb x cat) eqn:E; auto.
  rewrite value_eqb_sym in E. apply value_eqb_labelled in E. congruence.
Qed.

Lemma same_key_unlabelled (x y : value) :
  labelled x = false -> same_key x y = true -> labelled y = false.
Proof.
  intros Hx Hk. destruct (labelled y) eqn:Hy; auto.
  rewrite same_key_sym in Hk. apply same_key_value_eqb in Hk; auto.
  rewrite value_eqb_sym in Hk. apply value_eqb_labelled in Hk. congruence.
Qed.

(** ** The groups, row by row *)

(** Boolean indexing with the mask [col == cat] keeps the rows whose label
    equals [cat]. *)
Lemma take_eq_mask_rows_of (col s : Series) (cat : value) :
  take (eq_mask col cat) s = rows_of col s cat.
Proof.
  unfold rows_of, eq_mask. revert s.
  induction col as [|x col IH]; intros [|y s]; simpl; auto.
  destruct (value_eqb x cat); simpl; now rewrite IH.
Qed.

Lemma run_group_rows_of (c : string) (cat : value) (v : string) df col s :
  dict_get c df = Some col -> dict_get v df = Some s ->
  run (group c cat v) df = Ok (rows_of col s cat).
Proof.
  intros Hc Hv. now rewrite run_group, Hc, Hv, take_eq_mask_rows_of.
Qed.

Lemma run_groups_of_rows_of (c : string) (cats : list value) (v : string) df col s :
  dict_get c df = Some col -> dict_get v df = Some s ->
  run (groups_of c cats v) df = Ok (map (rows_of col s) cats).
Proof.
  intros Hc Hv. rewrite (run_groups_of c cats v df col s Hc Hv). f_equal.
  apply map_ext. intros cat. apply take_eq_mask_rows_of.
Qed.

(** The list comprehension returns for a category only when the numerical
    field is a column. *)
Lemma groups_of_Ok_inv (c : string) (cats : list value) (v : string) df col gs :
  dict_get c df = Some col -> cats <> [] ->
  run (groups_of c cats v) df = Ok gs ->
  exists s, dict_get v df = Some s /\ gs = map (rows_of col s) cats.
Proof.
  intros Hc Hne Hgs. destruct (dict_get v df) as [s|] eqn:Hv.
  - exists s. split; auto.
    rewrite (run_groups_of_rows_of c cats v df col s Hc Hv) in Hgs. congruence.
  - destruct cats as [|cat cats]; [congruence|].
    unfold groups_of in Hgs. simpl in Hgs.
    rewrite run_bind in Hgs by auto with readonly.
    rewrite run_group, Hc, Hv in Hgs. discriminate.
Qed.

(** The entries of the three tests, with their groups read row by row. *)
Lemma mw_computed_rows_of mannwhitneyu df (c v : string) (e : row) :
  mw_computed mannwhitneyu df c v e ->
  exists col s a b u p,
    dict_get c df = Some col /\ dict_get v df = Some s /\
    unique col = [a; b] /\
    mannwhitneyu (rows_of col s a) (rows_of col s b) two_sided = Stat u p /\
    e = [("U-statistic", u); ("p-value", p)].
Proof.
  intros (col & g1 & g2 & u & p & Hc & Hlen & Hg1 & Hg2 & Hs & ->).
  rewrite run_group, Hc in Hg1, Hg2.
  destruct (dict_get v df) as [s|] eqn:Hv; [|discriminate].
  destruct (unique col) as [|a [|b [|x l]]] eqn:Hu; try discriminate.
  simpl in Hg1, Hg2. rewrite take_eq_mask_rows_of in Hg1, Hg2.
  inversion Hg1; inversion Hg2; subst g1 g2.
  exists col, s, a, b, u, p. auto.
Qed.

Lemma kw_computed_rows_of kruskal df (c v : string) (e : row) :
  kw_computed kruskal df c v e ->
  exists col s h p,
    dict_get c df = Some col /\ 3 <= length (unique col) /\
    dict_get v df = Some s /\
    kruskal (map (rows_of col s) (unique col)) = Stat h p /\
    e = [("H-statistic", h); ("p-value", p)].
Proof.
  intros (col & gs & h & p & Hc & Hlen & Hgs & Hs & ->).
  destruct (groups_of_Ok_inv c (unique col) v df col gs Hc) as (s & Hv & ->); auto.
  { intros Hnil. rewrite Hnil in Hlen. simpl in Hlen. lia. }
  exists col, s, h, p. auto.
Qed.

(** What scipy is asked, said of the groups read row by row, is what it is
    asked of the groups the program builds. *)
Lemma mannwhitneyu_returns_on_groups mannwhitneyu df cats nums :
  (forall c v col s a b,
     In c cats -> In v nums ->
     dict_get c df = Some col -> dict_get v df = Some s ->
     unique col = [a; b] ->
     exists u p, mannwhitneyu (rows_of col s a) (rows_of col s b) two_sided = Stat u p) ->
  forall c v col g1 g2,
    In c cats -> In v nums ->
    dict_get c df = Some col -> length (unique col) = 2 ->
    run (group c (nth 0 (unique col) (Num nan)) v) df = Ok g1 ->
    run (group c (nth 1 (unique col) (Num nan)) v) df = Ok g2 ->
    exists u p, mannwhitneyu g1 g2 two_sided = Stat u p.
Proof.
  intros Hstat c v col g1 g2 Hc Hv Hcol Hlen Hg1 Hg2.
  rewrite run_group, Hcol in Hg1, Hg2.
  destruct (dict_get v df) as [s|] eqn:Hs; [|discriminate].
  destruct (unique col) as [|a [|b [|x l]]] eqn:Hu; try discriminate.
  simpl in Hg1, Hg2. rewrite take_eq_mask_rows_of in Hg1, Hg2.
  inversion Hg1; inversion Hg2; subst g1 g2.
  apply (Hstat c v col s a b); auto.
Qed.

Lemma kruskal_returns_on_groups kruskal df cats nums :
  (forall c v col s,
     In c cats -> In v nums ->
     dict_get c df = Some col -> dict_get v df = Some s ->
     3 <= length (unique col) ->
     exists h p, kruskal (map (rows_of col s) (unique col)) = Stat h p) ->
  forall c v col gs,
    In c cats -> In v nums ->
    dict_get c df = Some col -> 3 <= length (unique col) ->
    run (groups_of c (unique col) v) df = Ok gs ->
    exists h p, kruskal gs = Stat h p.
Proof.
  intros Hstat c v col gs Hc Hv Hcol Hlen Hgs.
  destruct (groups_of_Ok_inv c (unique col) v df col gs Hcol) as (s & Hs & ->); auto.
  { intros Hnil. rewrite Hnil in Hlen. simpl in Hlen. lia. }
  apply (Hstat c v col s); auto.
Qed.

(** [kruskal_wallis_test] returns a styled table when every field
    qualifies. *)
Lemma kruskal_wallis_test_returns_styled kruskal df cats nums :
  (forall c, In c cats -> dict_get c df <> None) ->
  (forall v, In v nums -> dict_get v df <> None) ->
  (forall c v col gs,
     In c cats -> In v nums ->
     dict_get c df = Some col -> 3 <= length (unique col) ->
     run (groups_of c (unique col) v) df = Ok gs ->
     exists h p, kruskal gs = Stat h p) ->
  cats <> [] -> nums <> [] ->
  (forall c, In c cats -> at_least_three df c) ->
  exists s, run (kruskal_wallis_test kruskal cats nums) df = Ok (Styled s).
Proof.
  intros Hcats Hnums Hstat Hc0 Hv0 Hall.
  destruct (kruskal_wallis_results_outcome kruskal df cats nums Hcats Hnums)
    as [(results & Hres & _)|(c & v & col & gs & msg & Hc & Hv & Hcol & Hlen & Hgs & Hs & _)].
  2:{ destruct (Hstat c v col gs Hc Hv Hcol Hlen Hgs) as (h & p & Hok). congruence. }
  pose proof (kruskal_wallis_results_inv kruskal df cats nums results Hres) as Hinv.
  assert (forall c, In c cats -> dict_get c results <> None) as Hkeys.
  { intros c Hc. destruct nums as [|v nums]; [congruence|].
    destruct (results_inv_has_key _ _ _ _ c v Hinv) as [inner Hinner];
      [apply in_pairs; simpl; auto | now apply Hall | congruence]. }
  destruct (result_items_returns results df cats nums Hkeys) as [items Hitems].
  eexists. rewrite run_kruskal_wallis_test, Hres.
  destruct results as [|kv results].
  - destruct cats as [|c cats]; [congruence|].
    exfalso. apply (Hkeys c); simpl; auto.
  - rewrite Hitems. reflexivity.
Qed.

(** The row of a pair in what [kruskal_wallis_test] returns, when its field
    has three categories or more. *)
Lemma kruskal_wallis_test_row kruskal df cats nums out (c v : string) :
  run (kruskal_wallis_test kruskal cats nums) df = Ok out ->
  In c cats -> In v nums -> at_least_three df c ->
  exists s h p,
    out = Styled s /\
    kw_computed kruskal df c v [("H-statistic", h); ("p-value", p)] /\
    Table_row (styler_data s) (c, v) = Some [h; p].
Proof.
  intros Hrun Hc Hv Happ.
  destruct (kruskal_wallis_test_rows kruskal df cats nums out Hrun) as [->|[_ Hrows]].
  - exfalso. rewrite run_kruskal_wallis_test in Hrun.
    destruct (run (kruskal_wallis_results kruskal cats nums) df)
      as [results|] eqn:Hres; [|discriminate].
    destruct results as [|kv results].
    + destruct (kruskal_wallis_results_inv kruskal df cats nums [] Hres)
        as (_ & _ & _ & Hcompl).
      destruct (Hcompl c v) as [e He]; [now apply in_pairs | exact Happ |].
      discriminate.
    + destruct (run (result_items (kv :: results) cats nums) df); discriminate.
  - destruct (Hrows c v Hc Hv) as (_ & h & p & Hkw & Hrow).
    rewrite run_kruskal_wallis_test in Hrun.
    destruct (run (kruskal_wallis_results kruskal cats nums) df)
      as [results|]; [|discriminate].
    destruct results as [|kv results].
    + inversion Hrun; subst out. discriminate.
    + destruct (run (result_items (kv :: results) cats nums) df) as [items|];
        [|discriminate].
      inversion Hrun; subst out. eauto 6.
Qed.

(** The entry [anova] computes, with its groups read row by row. *)
Lemma anova_computed_rows_of f_oneway df (c v : string) (e : row) (s : Series) :
  anova_computed f_oneway df c v e -> dict_get v df = Some s ->
  exists col f p,
    dict_get c df = Some col /\
    f_oneway (map (rows_of col s) (unique col)) = Stat f p /\
    e = [("F-Statistics", f); ("p-value", p)].
Proof.
  intros (col & gs & f & p & Hc & Hgs & Hf & ->) Hv.
  rewrite (run_groups_of_rows_of c (unique col) v df col s Hc Hv) in Hgs.
  inversion Hgs; subst gs. exists col, f, p. auto.
Qed.

(** The row of a numerical field in the table [anova] returns. *)
Lemma anova_row f_oneway df nums (c v : string) out col s :
  run (anova f_oneway nums c) df = Ok out ->
  In v nums -> dict_get c df = Some col -> dict_get v df = Some s ->
  exists f p,
    f_oneway (map (rows_of col s) (unique col)) = Stat f p /\
    Table_row (styler_data out) v = Some [f; p].
Proof.
  intros Hrun Hv Hc Hs. rewrite run_anova in Hrun.
  destruct (run (anova_results f_oneway nums c) df) as [r|] eqn:Hres; [|discriminate].
  inversion Hrun; subst out. simpl.
  destruct (anova_results_inv f_oneway df c nums r Hres) as [Hkeys Hval].
  assert (In v (dict_keys r)) as Hin by (rewrite Hkeys; now apply distinct_In).
  apply dict_get_In in Hin.
  destruct (dict_get v r) as [e|] eqn:Hget; [|congruence].
  destruct (anova_computed_rows_of f_oneway df c v e s (Hval v e Hget) Hs)
    as (col' & f & p & Hc' & Hf & ->).
  rewrite Hc in Hc'. inversion Hc'; subst col'.
  exists f, p. split; auto.
  eapply DataFrame_T_row_pair; eauto; [discriminate|].
  intros k' e' Hin'.
  apply In_dict_get in Hin'; [|rewrite Hkeys; apply distinct_NoDup].
  destruct (Hval k' e' Hin') as (? & ? & ? & ? & _ & _ & _ & ->). reflexivity.
Qed.


(** * The properties *)

(** C1.  When no supplied categorical field meets the condition of the test,
    the function is to return an empty table and not to raise.  That holds
    for [kruskal_wallis_test] and fails for [mann_whitney_test]: [site] has
    one category, so it meets the condition of neither test;
    [kruskal_wallis_test] returns the empty frame, and [mann_whitney_test],
    which has no guard on [results], raises [KeyError] when it builds the
    table. *)
Theorem mann_whitney_no_binary_field_raises :
  forall mannwhitneyu kruskal,
    nunique example_df "site" = Some 1 /\
    run (kruskal_wallis_test kruskal ["site"] ["NDVI"]) example_df
    = Ok (Unstyled empty_frame) /\
    run (mann_whitney_test mannwhitneyu ["site"] ["NDVI"]) example_df
    = Raise (KeyError "site").
Proof. intros mannwhitneyu kruskal. repeat split. Qed.

(** C2.  A pair whose categorical field does not meet the condition of the
    test is to be left out of the table, whose rows are the pairs that were
    evaluated.  That fails when a supplied field meets the condition and
    another does not: [region] has two categories, [season] four and [site]
    one; once scipy has returned for the first field, the call raises
    [KeyError] on [site] and builds no table. *)
Theorem unmet_pair_raises_instead_of_omitted :
  forall mannwhitneyu kruskal,
    run (mann_whitney_test mannwhitneyu ["region"; "site"] ["NDVI"]) example_df
    = match mannwhitneyu [Num 0.2; Num 0.3; Num 0.25]
                         [Num 0.6; Num 0.55; Num 0.58] two_sided with
      | Stat _ _ => Raise (KeyError "site")
      | Fails msg => Raise (ScipyError msg)
      end
    /\
    run (kruskal_wallis_test kruskal ["season"; "site"] ["NDVI"]) example_df
    = match kruskal [[Num 0.2; Num 0.55]; [Num 0.3; Num 0.58];
                     [Num 0.25]; [Num 0.6]] with
      | Stat _ _ => Raise (KeyError "site")
      | Fails msg => Raise (ScipyError msg)
      end.
Proof.
  intros mannwhitneyu kruskal. split.
  - vm_compute. destruct (mannwhitneyu _ _ _); reflexivity.
  - vm_compute. destruct (kruskal _); reflexivity.
Qed.

(** C3.  For every data set and every non-empty list of numerical fields,
    the dictionary comprehension that builds the table indexes
    [results[cat_var]] for every supplied categorical field:
    [mann_whitney_test] raises a [KeyError] whenever a supplied categorical
    field has a number of distinct values other than two, and
    [kruskal_wallis_test] raises a [KeyError] whenever a supplied field has
    three distinct values or more and another has fewer than three.  The
    only other exception a call can end with is one raised inside scipy
    before the table is built. *)
Theorem table_construction_raises_KeyError :
  forall mannwhitneyu kruskal df cats nums,
    nums <> [] ->
    (forall c n,
       In c cats -> nunique df c = Some n -> n <> 2 ->
       (forall msg, run (mann_whitney_test mannwhitneyu cats nums) df
                    <> Raise (ScipyError msg)) ->
       exists key,
         run (mann_whitney_test mannwhitneyu cats nums) df = Raise (KeyError key))
    /\
    (forall c3 n3 c n,
       In c3 cats -> nunique df c3 = Some n3 -> 3 <= n3 ->
       In c cats -> nunique df c = Some n -> n < 3 ->
       (forall msg, run (kruskal_wallis_test kruskal cats nums) df
                    <> Raise (ScipyError msg)) ->
       exists key,
         run (kruskal_wallis_test kruskal cats nums) df = Raise (KeyError key)).
Proof.
  intros mannwhitneyu kruskal df cats nums Hnums. split.
  - intros c n Hc Hn Hne Hscipy.
    rewrite run_mann_whitney_test in *.
    destruct (run (mann_whitney_results mannwhitneyu cats nums) df)
      as [results|[key|msg]] eqn:Hres.
    + pose proof (mann_whitney_results_inv _ _ _ _ _ Hres) as Hinv.
      assert (dict_get c results = None) as Hnone.
      { apply (results_inv_no_key (binary df) (mw_computed mannwhitneyu df)
                 (mw_computed_binary mannwhitneyu df) _ _ c Hinv).
        unfold binary. rewrite Hn. congruence. }
      destruct (result_items_raises results df cats nums c Hnums Hc Hnone)
        as (key & Hrun & _).
      exists key. now rewrite Hrun.
    + eauto.
    + exfalso. now apply (Hscipy msg).
  - intros c3 n3 c n Hc3 Hn3 Hge Hc Hn Hlt Hscipy.
    rewrite run_kruskal_wallis_test in *.
    destruct (run (kruskal_wallis_results kruskal cats nums) df)
      as [results|[key|msg]] eqn:Hres.
    + pose proof (kruskal_wallis_results_inv _ _ _ _ _ Hres) as Hinv.
      assert (dict_get c results = None) as Hnone.
      { apply (results_inv_no_key (at_least_three df) (kw_computed kruskal df)
                 (kw_computed_at_least_three kruskal df) _ _ c Hinv).
        intros (m & Hm & Hm3). rewrite Hn in Hm. inversion Hm. lia. }
      destruct nums as [|v nums']; [congruence|].
      destruct (results_inv_has_key _ _ (pairs cats (v :: nums')) results c3 v Hinv)
        as [inner Hinner].
      { apply in_pairs. simpl; auto. }
      { exists n3. auto. }
      destruct results as [|kv results]; [discriminate|].
      destruct (result_items_raises (kv :: results) df cats (v :: nums') c Hnums Hc Hnone)
        as (key & Hrun & _).
      exists key. now rewrite Hrun.
    + eauto.
    + exfalso. now apply (Hscipy msg).
Qed.

Lemma table_construction_raises_KeyError_witness :
  (exists key,
     run (mann_whitney_test example_mannwhitneyu ["region"; "site"] ["NDVI"]) example_df
     = Raise (KeyError key)) /\
  (exists key,
     run (kruskal_wallis_test example_kruskal ["season"; "region"] ["NDVI"]) example_df
     = Raise (KeyError key)).
Proof.
  split.
  - apply (proj1 (table_construction_raises_KeyError example_mannwhitneyu example_kruskal
                    example_df ["region"; "site"] ["NDVI"] ltac:(discriminate))
             "site" 1).
    + simpl; auto.
    + reflexivity.
    + lia.
    + intros msg. vm_compute. discriminate.
  - apply (proj2 (table_construction_raises_KeyError example_mannwhitneyu example_kruskal
                    example_df ["season"; "region"] ["NDVI"] ltac:(discriminate))
             "season" 4 "region" 2).
    + simpl; auto.
    + reflexivity.
    + lia.
    + simpl; auto.
    + reflexivity.
    + lia.
    + intros msg. vm_compute. discriminate.
Defined.

(** C4.  For every data set and every pair of a categorical and a numerical
    field, supplied and present in the frame, the loops of
    [mann_whitney_test] return (scipy returning on the groups of the pairs)
    with a [results] that has an entry for the pair if and only if the
    categorical field has exactly two distinct values.  The entry is then
    the statistic and the p-value that the two-sided [mannwhitneyu] returns
    on the two groups of the pair: the values of the numerical field in the
    rows labelled with the first category, and those in the rows labelled
    with the second.  No entry is written for a field whose number of
    distinct values is not two. *)
Theorem mann_whitney_entry_iff_two_categories :
  forall mannwhitneyu df cats nums,
    (forall c, In c cats -> dict_get c df <> None) ->
    (forall v, In v nums -> dict_get v df <> None) ->
    (forall c v col s a b,
       In c cats -> In v nums ->
       dict_get c df = Some col -> dict_get v df = Some s ->
       unique col = [a; b] ->
       exists u p,
         mannwhitneyu (rows_of col s a) (rows_of col s b) two_sided = Stat u p) ->
    exists results,
      run (mann_whitney_results mannwhitneyu cats nums) df = Ok results /\
      (forall c v, In c cats -> In v nums -> nunique df c = Some 2 ->
         exists col s a b u p,
           dict_get c df = Some col /\ dict_get v df = Some s /\
           unique col = [a; b] /\
           mannwhitneyu (rows_of col s a) (rows_of col s b) two_sided = Stat u p /\
           entry_of results c v = Some [("U-statistic", u); ("p-value", p)]) /\
      (forall c v, nunique df c <> Some 2 -> entry_of results c v = None) /\
      (forall c v e, entry_of results c v = Some e ->
         In c cats /\ In v nums /\ nunique df c = Some 2).
Proof.
  intros mannwhitneyu df cats nums Hcats Hnums Hstat.
  destruct (mann_whitney_results_returns mannwhitneyu df cats nums Hcats Hnums
              (mannwhitneyu_returns_on_groups mannwhitneyu df cats nums Hstat))
    as [results Hrun].
  exists results. split; auto.
  pose proof (mann_whitney_results_inv mannwhitneyu df cats nums results Hrun)
    as (Hnd & Hin & Hsound & Hcompl).
  split; [|split].
  - intros c v Hc Hv Hbin.
    destruct (Hcompl c v) as [e He]; [now apply in_pairs | exact Hbin |].
    destruct (Hsound c v e He) as [_ Hmw].
    apply mw_computed_rows_of in Hmw.
    destruct Hmw as (col & s & a & b & u & p & Hcol & Hs & Hu & Hstat' & ->).
    exists col, s, a, b, u, p. auto.
  - intros c v Hn. destruct (entry_of results c v) as [e|] eqn:He; auto.
    exfalso. apply Hn. apply Hsound in He. destruct He as [_ He].
    now apply mw_computed_binary in He.
  - intros c v e He. apply Hsound in He. destruct He as [Hp He].
    apply in_pairs in Hp. apply mw_computed_binary in He. tauto.
Qed.

Lemma mann_whitney_entry_iff_two_categories_witness :
  exists results,
    run (mann_whitney_results example_mannwhitneyu ["region"; "site"] ["NDVI"])
      example_df = Ok results /\
    (forall c v, In c ["region"; "site"] -> In v ["NDVI"] ->
       nunique example_df c = Some 2 ->
       exists col s a b u p,
         dict_get c example_df = Some col /\ dict_get v example_df = Some s /\
         unique col = [a; b] /\
         example_mannwhitneyu (rows_of col s a) (rows_of col s b) two_sided
         = Stat u p /\
         entry_of results c v = Some [("U-statistic", u); ("p-value", p)]) /\
    (forall c v, nunique example_df c <> Some 2 -> entry_of results c v = None) /\
    (forall c v e, entry_of results c v = Some e ->
       In c ["region"; "site"] /\ In v ["NDVI"] /\ nunique example_df c = Some 2).
Proof.
  apply (mann_whitney_entry_iff_two_categories example_mannwhitneyu example_df
           ["region"; "site"] ["NDVI"]).
  - intros c [<-|[<-|[]]]; vm_compute; discriminate.
  - intros v [<-|[]]; vm_compute; discriminate.
  - intros c v col s a b [<-|[<-|[]]] [<-|[]] Hcol Hs Hu;
      vm_compute in Hcol; inversion Hcol; subst col;
      vm_compute in Hs; inversion Hs; subst s;
      vm_compute in Hu; inversion Hu; subst;
      do 2 eexists; reflexivity.
Defined.

(** C5.  For every data set (the supplied fields being columns of the frame
    and scipy returning on the groups of the pairs), [kruskal_wallis_test]
    computes the statistic and the p-value of a supplied categorical field
    if and only if the field has three distinct values or more, and it
    computes them across all the groups of the field: [kruskal] is given,
    for each category in turn, the values of the numerical field in the rows
    labelled with that category.

    In the loops, such a field gets exactly one entry for each supplied
    numerical field, and a field with fewer than three distinct values is no
    key of [results].  Of the function: when every supplied categorical
    field has three distinct values or more, the call returns a styled table
    with exactly one row for each supplied pair, in the order of the loops,
    holding what [kruskal] returned on the groups of the pair; whenever the
    call returns, the pairs of such a field have these rows; and no table
    the call returns has a row for a field with fewer than three distinct
    values. *)
Theorem kruskal_wallis_rows_iff_three_categories :
  forall kruskal df cats nums,
    (forall c, In c cats -> dict_get c df <> None) ->
    (forall v, In v nums -> dict_get v df <> None) ->
    (forall c v col s,
       In c cats -> In v nums ->
       dict_get c df = Some col -> dict_get v df = Some s ->
       3 <= length (unique col) ->
       exists h p, kruskal (map (rows_of col s) (unique col)) = Stat h p) ->
    (exists results,
       run (kruskal_wallis_results kruskal cats nums) df = Ok results /\
       (forall c v, In c cats -> In v nums -> at_least_three df c ->
          exists col s h p,
            dict_get c df = Some col /\ dict_get v df = Some s /\
            kruskal (map (rows_of col s) (unique col)) = Stat h p /\
            entry_of results c v = Some [("H-statistic", h); ("p-value", p)]) /\
       (forall c inner, dict_get c results = Some inner ->
          at_least_three df c /\ NoDup (dict_keys inner) /\
          forall v, In v (dict_keys inner) <-> In v nums) /\
       (forall c, ~ at_least_three df c -> dict_get c results = None)) /\
    ((forall c, In c cats -> at_least_three df c) ->
     cats <> [] -> nums <> [] ->
     exists t,
       run (kruskal_wallis_test kruskal cats nums) df = Ok (Styled t) /\
       index (styler_data t) = distinct (pairs cats nums) /\
       NoDup (index (styler_data t)) /\
       forall c v, In c cats -> In v nums ->
         exists col s h p,
           dict_get c df = Some col /\ dict_get v df = Some s /\
           kruskal (map (rows_of col s) (unique col)) = Stat h p /\
           Table_row (styler_data t) (c, v) = Some [h; p]) /\
    (forall out c v,
       run (kruskal_wallis_test kruskal cats nums) df = Ok out ->
       In c cats -> In v nums -> at_least_three df c ->
       exists t col s h p,
         out = Styled t /\
         dict_get c df = Some col /\ dict_get v df = Some s /\
         kruskal (map (rows_of col s) (unique col)) = Stat h p /\
         Table_row (styler_data t) (c, v) = Some [h; p]) /\
    (forall out c v,
       run (kruskal_wallis_test kruskal cats nums) df = Ok out ->
       In (c, v) (index (table_of out)) -> at_least_three df c).
Proof.
  intros kruskal df cats nums Hcats Hnums Hstat.
  pose proof (kruskal_returns_on_groups kruskal df cats nums Hstat) as Hstat'.
  assert (forall out c v,
            run (kruskal_wallis_test kruskal cats nums) df = Ok out ->
            In c cats -> In v nums -> at_least_three df c ->
            exists t col s h p,
              out = Styled t /\
              dict_get c df = Some col /\ dict_get v df = Some s /\
              kruskal (map (rows_of col s) (unique col)) = Stat h p /\
              Table_row (styler_data t) (c, v) = Some [h; p]) as Hrow.
  { intros out c v Hout Hc Hv Happ.
    destruct (kruskal_wallis_test_row kruskal df cats nums out c v Hout Hc Hv Happ)
      as (t & h & p & -> & Hkw & Hr).
    apply kw_computed_rows_of in Hkw.
    destruct Hkw as (col & s & h' & p' & Hcol & _ & Hs & Hk & Heq).
    inversion Heq; subst h' p'. exists t, col, s, h, p. auto. }
  split; [|split; [|split]].
  - destruct (kruskal_wallis_results_outcome kruskal df cats nums Hcats Hnums)
      as [(results & Hrun & _)
         |(c & v & col & gs & msg & Hc & Hv & Hcol & Hlen & Hgs & Hs & _)].
    2:{ destruct (Hstat' c v col gs Hc Hv Hcol Hlen Hgs) as (h & p & Hok).
        congruence. }
    exists results. split; auto.
    pose proof (kruskal_wallis_results_inv kruskal df cats nums results Hrun) as Hinv.
    pose proof Hinv as (Hnd & Hin & Hsound & Hcompl).
    split; [|split].
    + intros c v Hc Hv Happ.
      destruct (Hcompl c v) as [e He]; [now apply in_pairs | exact Happ |].
      destruct (Hsound c v e He) as [_ Hkw].
      apply kw_computed_rows_of in Hkw.
      destruct Hkw as (col & s & h & p & Hcol & _ & Hs & Hk & ->).
      exists col, s, h, p. auto.
    + intros c inner Hget.
      assert (at_least_three df c) as Happ.
      { apply (results_inv_key _ _ (kw_computed_at_least_three kruskal df)
                 _ _ c inner Hinv Hget). }
      destruct (Hin c inner Hget) as [Hne Hndi].
      split; [exact Happ|]. split; [exact Hndi|].
      intros v. rewrite <- dict_get_In. split.
      * intros Hv. destruct (dict_get v inner) as [e|] eqn:He; [|congruence].
        destruct (Hsound c v e) as [Hp _]; [unfold entry_of; now rewrite Hget|].
        now apply in_pairs in Hp.
      * intros Hv.
        assert (In c cats) as Hc.
        { destruct (dict_nonempty_get _ Hne) as (v0 & e0 & H0).
          destruct (Hsound c v0 e0) as [Hp _]; [unfold entry_of; now rewrite Hget|].
          now apply in_pairs in Hp. }
        destruct (Hcompl c v) as [e He]; [now apply in_pairs | exact Happ |].
        unfold entry_of in He. rewrite Hget in He. congruence.
    + intros c Hn.
      apply (results_inv_no_key _ _ (kw_computed_at_least_three kruskal df)
               _ _ c Hinv Hn).
  - intros Hall Hc0 Hv0.
    destruct (kruskal_wallis_test_returns_styled kruskal df cats nums
                Hcats Hnums Hstat' Hc0 Hv0 Hall) as [t Ht].
    exists t. split; auto.
    destruct (kruskal_wallis_test_rows kruskal df cats nums _ Ht)
      as [Hbare|[Hidx _]]; [discriminate|]. simpl in Hidx.
    split; [exact Hidx|]. split; [rewrite Hidx; apply distinct_NoDup|].
    intros c v Hc Hv.
    destruct (Hrow _ c v Ht Hc Hv (Hall c Hc))
      as (t' & col & s & h & p & Heq & Hcol & Hs & Hk & Hr).
    inversion Heq; subst t'. exists col, s, h, p. auto.
  - exact Hrow.
  - intros out c v Hout Hin.
    destruct (kruskal_wallis_test_rows kruskal df cats nums out Hout)
      as [->|[Hidx Hrows]]; [destruct Hin|].
    rewrite Hidx, distinct_In in Hin. apply in_pairs in Hin.
    destruct Hin as [Hc Hv]. now destruct (Hrows c v Hc Hv).
Qed.

Lemma kruskal_wallis_rows_iff_three_categories_witness :
  (exists t,
     run (kruskal_wallis_test example_kruskal ["season"] ["NDVI"; "temperature"])
       example_df = Ok (Styled t) /\
     index (styler_data t) = [("season", "NDVI"); ("season", "temperature")] /\
     Table_row (styler_data t) ("season", "NDVI") = Some [4.5; 0.21]%float /\
     Table_row (styler_data t) ("season", "temperature") = Some [4.5; 0.21]%float) /\
  (exists results,
     run (kruskal_wallis_results example_kruskal ["season"; "site"]
            ["NDVI"; "temperature"]) example_df = Ok results /\
     entry_of results "season" "NDVI"
     = Some [("H-statistic", 4.5%float); ("p-value", 0.21%float)] /\
     dict_get "site" results = None).
Proof.
  assert (forall cats,
            (forall c, In c cats -> c = "season" \/ c = "site") ->
            (forall c, In c cats -> dict_get c example_df <> None) /\
            (forall v, In v ["NDVI"; "temperature"] -> dict_get v example_df <> None) /\
            (forall c v col s,
               In c cats -> In v ["NDVI"; "temperature"] ->
               dict_get c example_df = Some col -> dict_get v example_df = Some s ->
               3 <= length (unique col) ->
               exists h p,
                 example_kruskal (map (rows_of col s) (unique col)) = Stat h p))
    as Hpre.
  { intros cats Hsub. split; [|split].
    - intros c Hc. destruct (Hsub c Hc) as [-> | ->]; vm_compute; discriminate.
    - intros v [<-|[<-|[]]]; vm_compute; discriminate.
    - intros c v col s Hc [<-|[<-|[]]] Hcol Hs Hlen;
        destruct (Hsub c Hc) as [-> | ->];
        vm_compute in Hcol; inversion Hcol; subst col;
        vm_compute in Hs; inversion Hs; subst s;
        vm_compute in Hlen; try lia;
        do 2 eexists; reflexivity. }
  assert (forall c v col s h p,
            (c = "season") -> In v ["NDVI"; "temperature"] ->
            dict_get c example_df = Some col -> dict_get v example_df = Some s ->
            example_kruskal (map (rows_of col s) (unique col)) = Stat h p ->
            h = 4.5%float /\ p = 0.21%float) as Hval.
  { intros c v col s h p -> [<-|[<-|[]]] Hcol Hs Hk;
      vm_compute in Hcol; inversion Hcol; subst col;
      vm_compute in Hs; inversion Hs; subst s;
      vm_compute in Hk; inversion Hk; auto. }
  split.
  - destruct (Hpre ["season"]) as (H1 & H2 & H3).
    { intros c [<-|[]]; auto. }
    destruct (kruskal_wallis_rows_iff_three_categories example_kruskal example_df
                ["season"] ["NDVI"; "temperature"] H1 H2 H3)
      as (_ & Hfull & _).
    destruct Hfull as (t & Ht & Hidx & _ & Hrows).
    { intros c [<-|[]]. exists 4. split; [reflexivity | lia]. }
    { discriminate. }
    { discriminate. }
    exists t. split; [exact Ht|]. split; [exact Hidx|]. split.
    + destruct (Hrows "season" "NDVI") as (col & s & h & p & Hcol & Hs & Hk & Hr);
        [simpl; auto | simpl; auto |].
      destruct (Hval "season" "NDVI" col s h p) as [-> ->]; simpl; auto.
    + destruct (Hrows "season" "temperature") as (col & s & h & p & Hcol & Hs & Hk & Hr);
        [simpl; auto | simpl; auto |].
      destruct (Hval "season" "temperature" col s h p) as [-> ->]; simpl; auto.
  - destruct (Hpre ["season"; "site"]) as (H1 & H2 & H3).
    { intros c [<-|[<-|[]]]; auto. }
    destruct (kruskal_wallis_rows_iff_three_categories example_kruskal example_df
                ["season"; "site"] ["NDVI"; "temperature"] H1 H2 H3)
      as ((results & Hrun & Hentries & _ & Hnone) & _).
    exists results. split; [exact Hrun|]. split.
    + destruct (Hentries "season" "NDVI") as (col & s & h & p & Hcol & Hs & Hk & He);
        [simpl; auto | simpl; auto | exists 4; split; [reflexivity | lia] |].
      destruct (Hval "season" "NDVI" col s h p) as [-> ->]; simpl; auto.
    + apply Hnone. intros (n & Hn & Hle). vm_compute in Hn. inversion Hn. lia.
Defined.

(** C6.  For every data set whose categorical field, the single one the
    caller supplies, splits it into two groups or more, none empty (on which
    [f_oneway] returns), [anova] returns a table with exactly one row for
    each supplied numerical field, in the order of their first occurrence:
    the F statistic and the p-value of [f_oneway] on the groups of all the
    categories.  No condition on the number of categories is tested. *)
Theorem anova_one_row_per_numerical_field :
  forall f_oneway df nums c col,
    (forall gs, 2 <= length gs -> ~ In [] gs ->
       exists f p, f_oneway gs = Stat f p) ->
    dict_get c df = Some col ->
    2 <= length (unique col) ->
    (forall v, In v nums -> dict_get v df <> None) ->
    (forall v gs, In v nums ->
       run (groups_of c (unique col) v) df = Ok gs -> ~ In [] gs) ->
    exists s,
      run (anova f_oneway nums c) df = Ok s /\
      index (styler_data s) = distinct nums /\
      NoDup (index (styler_data s)) /\
      (forall v, In v (index (styler_data s)) <-> In v nums) /\
      (forall v, In v nums ->
         exists gs f p,
           run (groups_of c (unique col) v) df = Ok gs /\
           length gs = length (unique col) /\
           f_oneway gs = Stat f p /\
           Table_row (styler_data s) v = Some [f; p]).
Proof.
  intros f_oneway df nums c col Hscipy Hc Hlen Hnums Hgroups.
  destruct (anova_results_outcome f_oneway df c nums col Hc Hnums)
    as [(r & Hrun & Hok)|(v & gs & msg & Hv & Hgs & Hs & _)].
  2:{ destruct (Hscipy gs) as (f & p & Hf).
      - apply run_groups_of_length in Hgs. unfold Series in *. lia.
      - eapply Hgroups; eauto.
      - congruence. }
  exists (style_map (DataFrame_T r) highlight_significant "p-value").
  rewrite run_anova, Hrun. split; auto. simpl.
  destruct (anova_results_inv f_oneway df c nums r Hrun) as [Hkeys Hval].
  split; [exact Hkeys|]. split; [rewrite Hkeys; apply distinct_NoDup|].
  split; [intros v; rewrite Hkeys; apply distinct_In|].
  intros v Hv.
  assert (In v (dict_keys r)) as Hin by (rewrite Hkeys; now apply distinct_In).
  apply dict_get_In in Hin.
  destruct (dict_get v r) as [e|] eqn:Hget; [|congruence].
  destruct (Hval v e Hget) as (col' & gs & f & p & Hc' & Hgs & Hs & ->).
  rewrite Hc in Hc'. inversion Hc'; subst col'.
  exists gs, f, p. split; auto. split; [now apply run_groups_of_length in Hgs|].
  split; auto.
  eapply DataFrame_T_row_pair; eauto; [discriminate|].
  intros k' e' Hin'.
  apply In_dict_get in Hin'; [|rewrite Hkeys; apply distinct_NoDup].
  destruct (Hval k' e' Hin') as (? & ? & ? & ? & _ & _ & _ & ->). reflexivity.
Qed.

Lemma anova_one_row_per_numerical_field_witness :
  exists s,
    run (anova example_f_oneway ["NDVI"; "temperature"; "NDVI"] "season") example_df = Ok s /\
    index (styler_data s) = distinct ["NDVI"; "temperature"; "NDVI"] /\
    NoDup (index (styler_data s)) /\
    (forall v, In v (index (styler_data s)) <-> In v ["NDVI"; "temperature"; "NDVI"]) /\
    (forall v, In v ["NDVI"; "temperature"; "NDVI"] ->
       exists gs f p,
         run (groups_of "season"
                (unique [Str "winter"; Str "spring"; Str "summer";
                         Str "autumn"; Str "winter"; Str "spring"]) v) example_df
         = Ok gs /\
         length gs = length (unique [Str "winter"; Str "spring"; Str "summer";
                                     Str "autumn"; Str "winter"; Str "spring"]) /\
         example_f_oneway gs = Stat f p /\
         Table_row (styler_data s) v = Some [f; p]).
Proof.
  apply (anova_one_row_per_numerical_field example_f_oneway example_df
           ["NDVI"; "temperature"; "NDVI"] "season").
  - intros gs _ Hne. unfold example_f_oneway.
    assert (has_empty_group gs = false) as ->; [|eauto].
    induction gs as [|g gs IH]; auto. simpl.
    destruct g; [exfalso; apply Hne; now left|].
    apply IH. intros Hin. apply Hne. now right.
  - reflexivity.
  - vm_compute. lia.
  - intros v [<-|[<-|[<-|[]]]]; vm_compute; discriminate.
  - intros v gs [<-|[<-|[<-|[]]]] Hgs; vm_compute in Hgs; inversion Hgs; subst;
      simpl; intuition discriminate.
Defined.




(** C8.  For every result table (with its [p-value] column) and every row
    of it, the annotation marks a cell as significant, with the style
    [background-color: yellow], exactly when the cell is in the column
    [p-value] and its value is strictly below 0.05; every other cell gets
    the empty style. *)
Theorem highlight_marks_exactly_significant_p_values :
  forall (L : Type) (t : Table L),
    In "p-value" (columns t) ->
    exists grid,
      css (style_map t highlight_significant "p-value") = Ok grid /\
      length grid = length (data t) /\
      forall i r, nth_error (data t) i = Some r ->
        exists styles,
          nth_error grid i = Some styles /\
          forall j col x,
            nth_error (columns t) j = Some col -> nth_error r j = Some x ->
            exists style,
              nth_error styles j = Some style /\
              (style = "background-color: yellow" <->
               col = "p-value" /\ PrimFloat.ltb x 0.05 = true) /\
              (style = "background-color: yellow" \/ style = "").
Proof.
  intros L t Hcol. unfold css, style_map.
  cbn [styler_data styler_subset styler_func].
  assert (existsb (String.eqb "p-value") (columns t) = true) as ->.
  { change (existsb (key_eqb "p-value") (columns t) = true).
    now apply existsb_key_In. }
  eexists. split; [reflexivity|]. split; [apply length_map|].
  intros i r Hr. exists (css_row highlight_significant "p-value" (columns t) r).
  split; [now apply map_nth_error|].
  intros j col x Hj Hx. unfold css_row.
  pose proof (nth_error_combine _ _ _ _ _ Hj Hx) as Hcx.
  eexists. split; [apply (map_nth_error _ _ _ Hcx)|]. simpl.
  destruct (String.eqb_spec col "p-value") as [->|Hne].
  - split; [|apply highlight_significant_cases].
    rewrite highlight_significant_yellow. tauto.
  - split; [|auto]. split; [discriminate | tauto].
Qed.

Lemma highlight_marks_exactly_significant_p_values_witness :
  exists grid,
    css (style_map example_table highlight_significant "p-value") = Ok grid /\
    length grid = length (data example_table) /\
    forall i r, nth_error (data example_table) i = Some r ->
      exists styles,
        nth_error grid i = Some styles /\
        forall j col x,
          nth_error (columns example_table) j = Some col -> nth_error r j = Some x ->
          exists style,
            nth_error styles j = Some style /\
            (style = "background-color: yellow" <->
             col = "p-value" /\ PrimFloat.ltb x 0.05 = true) /\
            (style = "background-color: yellow" \/ style = "").
Proof.
  apply (highlight_marks_exactly_significant_p_values _ example_table).
  simpl. auto.
Defined.

(** C9.  For every call of [mann_whitney_test], [kruskal_wallis_test] or
    [anova], whether it returns or raises, the caller's data frame is after
    the call what it was before; and the annotation keeps the table it is
    given: the styled result holds the frame of statistics and p-values
    unchanged, next to the styling function and the column it applies to. *)
Theorem dataset_and_table_unchanged :
  forall mannwhitneyu kruskal f_oneway df cats nums c,
    frame_after (mann_whitney_test mannwhitneyu cats nums) df = df /\
    frame_after (kruskal_wallis_test kruskal cats nums) df = df /\
    frame_after (anova f_oneway nums c) df = df /\
    (forall (L : Type) (t : Table L),
       styler_data (style_map t highlight_significant "p-value") = t) /\
    (forall s, run (mann_whitney_test mannwhitneyu cats nums) df = Ok s ->
       exists results items,
         run (mann_whitney_results mannwhitneyu cats nums) df = Ok results /\
         run (result_items results cats nums) df = Ok items /\
         styler_data s = DataFrame_T items) /\
    (forall s, run (kruskal_wallis_test kruskal cats nums) df = Ok (Styled s) ->
       exists results items,
         run (kruskal_wallis_results kruskal cats nums) df = Ok results /\
         run (result_items results cats nums) df = Ok items /\
         styler_data s = DataFrame_T items) /\
    (forall s, run (anova f_oneway nums c) df = Ok s ->
       exists results,
         run (anova_results f_oneway nums c) df = Ok results /\
         styler_data s = DataFrame_T results).
Proof.
  intros mannwhitneyu kruskal f_oneway df cats nums c.
  split; [apply readonly_mann_whitney_test|].
  split; [apply readonly_kruskal_wallis_test|].
  split; [apply readonly_anova|].
  split; [reflexivity|].
  split; [|split]; intros s.
  - rewrite run_mann_whitney_test.
    destruct (run (mann_whitney_results _ _ _) df) as [results|]; [|discriminate].
    destruct (run (result_items _ _ _) df) as [items|] eqn:Hitems; [|discriminate].
    intros Heq. inversion Heq. exists results, items. auto.
  - rewrite run_kruskal_wallis_test.
    destruct (run (kruskal_wallis_results _ _ _) df) as [[|kv results]|];
      try discriminate.
    destruct (run (result_items _ _ _) df) as [items|] eqn:Hitems; [|discriminate].
    intros Heq. inversion Heq. exists (kv :: results), items. auto.
  - rewrite run_anova.
    destruct (run (anova_results _ _ _) df) as [results|]; [|discriminate].
    intros Heq. inversion Heq. exists results. auto.
Qed.

Lemma dataset_and_table_unchanged_witness :
  frame_after (mann_whitney_test example_mannwhitneyu ["region"] ["NDVI"]) example_df
  = example_df /\
  frame_after (kruskal_wallis_test example_kruskal ["region"] ["NDVI"]) example_df
  = example_df /\
  frame_after (anova example_f_oneway ["NDVI"] "season") example_df = example_df /\
  exists results items,
    run (mann_whitney_results example_mannwhitneyu ["region"] ["NDVI"]) example_df
    = Ok results /\
    run (result_items results ["region"] ["NDVI"]) example_df = Ok items /\
    DataFrame_T [(("region", "NDVI"), [("U-statistic", 0%float); ("p-value", 0.1%float)])]
    = DataFrame_T items.
Proof.
  destruct (dataset_and_table_unchanged example_mannwhitneyu example_kruskal example_f_oneway
              example_df ["region"] ["NDVI"] "season")
    as (Hmw & Hkw & Han & _ & Hdata & _ & _).
  split; [exact Hmw|]. split; [exact Hkw|]. split; [exact Han|].
  apply (Hdata (style_map
                  (DataFrame_T [(("region", "NDVI"),
                                 [("U-statistic", 0%float); ("p-value", 0.1%float)])])
                  highlight_significant "p-value")).
  reflexivity.
Defined.

(** C10.  For every entry of a table returned by [mann_whitney_test],
    [kruskal_wallis_test] or [anova] whose groups are valid input, the
    p-value lies in the closed interval from 0 to 1 and the statistic is a
    real number, the routines of scipy keeping this contract on valid input:
    the program stores in the row what scipy returned on the groups of the
    pair, the statistic first and the p-value second, and changes neither. *)
Theorem test_results_keep_scipy_contract :
  forall (valid : list Series -> Prop) mannwhitneyu kruskal f_oneway df,
    keeps_contract valid
      (fun groups =>
         match groups with
         | [x; y] => mannwhitneyu x y two_sided
         | _ => Fails "two groups expected"
         end) ->
    keeps_contract valid kruskal ->
    keeps_contract valid f_oneway ->
    (forall cats nums t c v col s,
       run (mann_whitney_test mannwhitneyu cats nums) df = Ok t ->
       In (c, v) (index (styler_data t)) ->
       dict_get c df = Some col -> dict_get v df = Some s ->
       valid (map (rows_of col s) (unique col)) ->
       exists u p,
         Table_row (styler_data t) (c, v) = Some [u; p] /\
         is_real u = true /\
         PrimFloat.leb 0 p = true /\ PrimFloat.leb p 1 = true) /\
    (forall cats nums out c v col s,
       run (kruskal_wallis_test kruskal cats nums) df = Ok out ->
       In (c, v) (index (table_of out)) ->
       dict_get c df = Some col -> dict_get v df = Some s ->
       valid (map (rows_of col s) (unique col)) ->
       exists h p,
         Table_row (table_of out) (c, v) = Some [h; p] /\
         is_real h = true /\
         PrimFloat.leb 0 p = true /\ PrimFloat.leb p 1 = true) /\
    (forall nums c t v col s,
       run (anova f_oneway nums c) df = Ok t ->
       In v (index (styler_data t)) ->
       dict_get c df = Some col -> dict_get v df = Some s ->
       valid (map (rows_of col s) (unique col)) ->
       exists f p,
         Table_row (styler_data t) v = Some [f; p] /\
         is_real f = true /\
         PrimFloat.leb 0 p = true /\ PrimFloat.leb p 1 = true).
Proof.
  intros valid mannwhitneyu kruskal f_oneway df Hmw Hkw Hf.
  assert (forall x p, valid_test_result x p ->
            is_real x = true /\ PrimFloat.leb 0 p = true /\ PrimFloat.leb p 1 = true)
    as Hsplit.
  { intros x p [Hx Hp]. unfold in_unit_interval in Hp.
    apply andb_true_iff in Hp. tauto. }
  split; [|split].
  - intros cats nums t c v col s Hrun Hin Hcol Hs Hvalid.
    destruct (mann_whitney_test_rows mannwhitneyu df cats nums t Hrun) as [Hidx Hrows].
    rewrite Hidx, distinct_In in Hin. apply in_pairs in Hin. destruct Hin as [Hc Hv].
    destruct (Hrows c v Hc Hv) as (_ & u & p & Hcomp & Hrow).
    apply mw_computed_rows_of in Hcomp.
    destruct Hcomp as (col' & s' & a & b & u' & p' & Hcol' & Hs' & Hu & Hstat & Heq).
    inversion Heq; subst u' p'.
    rewrite Hcol in Hcol'. inversion Hcol'; subst col'.
    rewrite Hs in Hs'. inversion Hs'; subst s'.
    exists u, p. split; [exact Hrow|].
    apply Hsplit. apply (Hmw _ u p Hvalid). rewrite Hu. exact Hstat.
  - intros cats nums out c v col s Hrun Hin Hcol Hs Hvalid.
    destruct (kruskal_wallis_test_rows kruskal df cats nums out Hrun)
      as [->|[Hidx Hrows]]; [destruct Hin|].
    rewrite Hidx, distinct_In in Hin. apply in_pairs in Hin. destruct Hin as [Hc Hv].
    destruct (Hrows c v Hc Hv) as (_ & h & p & Hcomp & Hrow).
    apply kw_computed_rows_of in Hcomp.
    destruct Hcomp as (col' & s' & h' & p' & Hcol' & _ & Hs' & Hstat & Heq).
    inversion Heq; subst h' p'.
    rewrite Hcol in Hcol'. inversion Hcol'; subst col'.
    rewrite Hs in Hs'. inversion Hs'; subst s'.
    exists h, p. split; [exact Hrow|].
    apply Hsplit. apply (Hkw _ h p Hvalid Hstat).
  - intros nums c t v col s Hrun Hin Hcol Hs Hvalid.
    assert (In v nums) as Hv.
    { rewrite run_anova in Hrun.
      destruct (run (anova_results f_oneway nums c) df) as [r|] eqn:Hres;
        [|discriminate].
      inversion Hrun; subst t. cbn [styler_data style_map] in Hin.
      destruct (anova_results_inv f_oneway df c nums r Hres) as [Hkeys _].
      rewrite DataFrame_T_index, Hkeys, distinct_In in Hin. exact Hin. }
    destruct (anova_row f_oneway df nums c v t col s Hrun Hv Hcol Hs)
      as (f & p & Hstat & Hrow).
    exists f, p. split; [exact Hrow|].
    apply Hsplit. apply (Hf _ f p Hvalid Hstat).
Qed.

Lemma test_results_keep_scipy_contract_witness :
  (exists t u p,
     run (mann_whitney_test example_mannwhitneyu ["region"] ["NDVI"]) example_df
     = Ok t /\
     Table_row (styler_data t) ("region", "NDVI") = Some [u; p] /\
     is_real u = true /\ PrimFloat.leb 0 p = true /\ PrimFloat.leb p 1 = true) /\
  (exists t h p,
     run (kruskal_wallis_test example_kruskal ["season"] ["NDVI"]) example_df
     = Ok (Styled t) /\
     Table_row (styler_data t) ("season", "NDVI") = Some [h; p] /\
     is_real h = true /\ PrimFloat.leb 0 p = true /\ PrimFloat.leb p 1 = true) /\
  (exists t f p,
     run (anova example_f_oneway ["NDVI"] "season") example_df = Ok t /\
     Table_row (styler_data t) "NDVI" = Some [f; p] /\
     is_real f = true /\ PrimFloat.leb 0 p = true /\ PrimFloat.leb p 1 = true).
Proof.
  pose (valid := fun gs : list Series => has_empty_group gs = false).
  assert (keeps_contract valid
            (fun groups =>
               match groups with
               | [x; y] => example_mannwhitneyu x y two_sided
               | _ => Fails "two groups expected"
               end))
    as Hmw.
  { intros [|x [|y [|z gs]]] u p _; try discriminate.
    unfold example_mannwhitneyu.
    destruct (has_empty_group _); intros H; inversion H.
    split; reflexivity. }
  assert (keeps_contract valid example_kruskal) as Hkw.
  { intros gs h p _. unfold example_kruskal.
    destruct (has_empty_group gs); intros H; inversion H.
    split; reflexivity. }
  assert (keeps_contract valid example_f_oneway) as Hf.
  { intros gs f p _. unfold example_f_oneway.
    destruct (has_empty_group gs); intros H; inversion H.
    split; reflexivity. }
  destruct (test_results_keep_scipy_contract valid example_mannwhitneyu
              example_kruskal example_f_oneway example_df Hmw Hkw Hf)
    as (Hmwt & Hkwt & Hant).
  split; [|split].
  - destruct (Hmwt ["region"] ["NDVI"] _ "region" "NDVI"
                [Str "A"; Str "A"; Str "A"; Str "B"; Str "B"; Str "B"]
                [Num 0.2; Num 0.3; Num 0.25; Num 0.6; Num 0.55; Num 0.58]
                eq_refl)
      as (u & p & Hrow & Hreal & H0 & H1);
      [simpl; auto | reflexivity | reflexivity | reflexivity |].
    eexists _, u, p. split; [reflexivity|]. auto.
  - destruct (Hkwt ["season"] ["NDVI"] _ "season" "NDVI"
                [Str "winter"; Str "spring"; Str "summer";
                 Str "autumn"; Str "winter"; Str "spring"]
                [Num 0.2; Num 0.3; Num 0.25; Num 0.6; Num 0.55; Num 0.58]
                eq_refl)
      as (h & p & Hrow & Hreal & H0 & H1);
      [simpl; auto | reflexivity | reflexivity | reflexivity |].
    eexists _, h, p. split; [reflexivity|]. auto.
  - destruct (Hant ["NDVI"] "season" _ "NDVI"
                [Str "winter"; Str "spring"; Str "summer";
                 Str "autumn"; Str "winter"; Str "spring"]
                [Num 0.2; Num 0.3; Num 0.25; Num 0.6; Num 0.55; Num 0.58]
                eq_refl)
      as (f & p & Hrow & Hreal & H0 & H1);
      [simpl; auto | reflexivity | reflexivity | reflexivity |].
    eexists _, f, p. split; [reflexivity|]. auto.
Defined.

(** * Further properties of the program *)

(** ** The groups of a column *)

Lemma Permutation_concat_app {A B : Type} (f g : A -> list B) (l : list A) :
  Permutation (concat (map (fun a => f a ++ g a) l))
              (concat (map f l) ++ concat (map g l)).
Proof.
  induction l as [|a l IH]; simpl; auto.
  rewrite <- !app_assoc. apply Permutation_app_head.
  rewrite IH. apply Permutation_app_swap_app.
Qed.

(** A row goes to exactly one category when it has a label, and to none
    when its label is missing. *)
Lemma no_category_matches (cats : list value) (x y : value) :
  (forall cat, In cat cats -> value_eqb x cat = false) ->
  concat (map (fun cat => if value_eqb x cat then [y] else []) cats) = [].
Proof.
  induction cats as [|a cats IH]; intros Hall; simpl; auto.
  rewrite (Hall a) by now left. simpl. apply IH. intros; apply Hall. now right.
Qed.

Lemma one_category_matches (cats : list value) (x y : value) :
  distinct_keys cats ->
  (exists cat, In cat cats /\ value_eqb x cat = true) ->
  concat (map (fun cat => if value_eqb x cat then [y] else []) cats) = [y].
Proof.
  induction cats as [|a cats IH]; intros Hd (cat & Hin & Hm); [destruct Hin|].
  destruct Hd as [Ha Hd]. simpl.
  destruct (value_eqb x a) eqn:Exa.
  - simpl. f_equal. apply no_category_matches.
    intros b Hb. destruct (value_eqb x b) eqn:Exb; auto.
    assert (value_eqb a b = true) as Hab.
    { apply (value_eqb_trans a x b); auto. now rewrite value_eqb_sym. }
    apply value_eqb_same_key in Hab. rewrite (Ha b Hb) in Hab. discriminate.
  - simpl. apply IH; auto.
    destruct Hin as [->|Hin]; [congruence|]. eauto.
Qed.

Lemma category_of_row (col : Series) (x y : value) :
  In x col ->
  concat (map (fun cat => if value_eqb x cat then [y] else []) (unique col))
  = if labelled x then [y] else [].
Proof.
  intros Hx. destruct (labelled x) eqn:El.
  - apply one_category_matches; [apply unique_distinct|].
    destruct (unique_covers col x Hx) as (cat & Hcat & Hk).
    exists cat. split; auto. now apply same_key_value_eqb.
  - apply no_category_matches. intros cat _.
    destruct (value_eqb x cat) eqn:E; auto.
    apply value_eqb_labelled in E. congruence.
Qed.

Lemma groups_partition_rows (cats : list value) (col s : Series) :
  (forall (x y : value), In x col ->
     concat (map (fun cat => if value_eqb x cat then [y] else []) cats)
     = if labelled x then [y] else []) ->
  Permutation (concat (map (fun cat => take (eq_mask col cat) s) cats))
              (observed col s).
Proof.
  assert (forall l : list value, concat (map (fun _ => @nil value) l) = []) as Hnil.
  { induction l; simpl; auto. }
  revert s. induction col as [|x col IH]; intros s Hrow.
  - unfold observed. simpl. now rewrite Hnil.
  - destruct s as [|y s].
    + unfold observed. simpl. now rewrite Hnil.
    + unfold observed. simpl. fold (observed col s).
      rewrite (map_ext (fun cat => take (eq_mask (x :: col) cat) (y :: s))
                 (fun cat => (if value_eqb x cat then [y] else [])
                             ++ take (eq_mask col cat) s)).
      2:{ intros cat. simpl. destruct (value_eqb x cat); reflexivity. }
      rewrite Permutation_concat_app, (Hrow x y) by now left.
      assert (Permutation (concat (map (fun cat => take (eq_mask col cat) s) cats))
                          (observed col s)) as Hrest.
      { apply IH. intros x' y' Hx'. apply Hrow. now right. }
      destruct (labelled x); simpl; auto.
Qed.

Lemma observed_all (col s : Series) :
  (forall x, In x col -> labelled x = true) -> length s = length col ->
  observed col s = s.
Proof.
  unfold observed. revert s. induction col as [|x col IH]; intros s Hall Hlen.
  - destruct s; [reflexivity | discriminate].
  - destruct s as [|y s]; [discriminate|]. simpl.
    rewrite (Hall x) by now left. f_equal.
    apply IH; [|simpl in Hlen; congruence].
    intros x' Hx'. apply Hall. now right.
Qed.

(** X1.  The groups [kruskal_wallis_test] and [anova] pass to scipy, one for
    each category of the field in the order of [unique()], split the
    observations of the numerical field whose label is not missing: each of
    them is in exactly one group.  When no label is missing, the groups split
    the whole column. *)
Theorem groups_partition_observations :
  forall df c v col s gs,
    dict_get c df = Some col -> dict_get v df = Some s ->
    run (groups_of c (unique col) v) df = Ok gs ->
    length gs = length (unique col) /\
    Permutation (concat gs) (observed col s) /\
    ((forall x, In x col -> labelled x = true) -> length s = length col ->
     Permutation (concat gs) s).
Proof.
  intros df c v col s gs Hc Hv Hgs.
  split; [eapply run_groups_of_length; eauto|].
  rewrite (run_groups_of c (unique col) v df col s Hc Hv) in Hgs.
  inversion Hgs; subst gs.
  assert (Permutation
            (concat (map (fun cat => take (eq_mask col cat) s) (unique col)))
            (observed col s)) as Hperm.
  { apply groups_partition_rows. intros x y Hx. now apply category_of_row. }
  split; auto.
  intros Hall Hlen. now rewrite (observed_all col s Hall Hlen) in Hperm.
Qed.

Lemma groups_partition_observations_witness :
  length [[Num 0.2; Num 0.6]; [Num 0.3; Num 0.55]; []]
  = length (unique [Str "p"; Str "q"; Num nan; Str "p"; Str "q"; Num nan]) /\
  Permutation
    (concat [[Num 0.2; Num 0.6]; [Num 0.3; Num 0.55]; []])
    (observed [Str "p"; Str "q"; Num nan; Str "p"; Str "q"; Num nan]
              [Num 0.2; Num 0.3; Num 0.25; Num 0.6; Num 0.55; Num 0.58]) /\
  ((forall x, In x [Str "p"; Str "q"; Num nan; Str "p"; Str "q"; Num nan] ->
      labelled x = true) ->
   length [Num 0.2; Num 0.3; Num 0.25; Num 0.6; Num 0.55; Num 0.58]
   = length [Str "p"; Str "q"; Num nan; Str "p"; Str "q"; Num nan] ->
   Permutation
     (concat [[Num 0.2; Num 0.6]; [Num 0.3; Num 0.55]; []])
     [Num 0.2; Num 0.3; Num 0.25; Num 0.6; Num 0.55; Num 0.58]).
Proof.
  apply (groups_partition_observations example_df "plot" "NDVI");
    reflexivity.
Defined.

(** X2.  The two groups [mann_whitney_test] passes to [mannwhitneyu] for a
    field with two categories split the observations of the numerical field
    whose label is not missing: each of them is in exactly one of the two
    groups. *)
Theorem mann_whitney_groups_partition :
  forall df c v col s g1 g2,
    dict_get c df = Some col -> dict_get v df = Some s ->
    length (unique col) = 2 ->
    run (group c (nth 0 (unique col) (Num nan)) v) df = Ok g1 ->
    run (group c (nth 1 (unique col) (Num nan)) v) df = Ok g2 ->
    Permutation (g1 ++ g2) (observed col s).
Proof.
  intros df c v col s g1 g2 Hc Hv Hlen Hg1 Hg2.
  rewrite run_group, Hc, Hv in Hg1, Hg2. inversion Hg1; inversion Hg2; subst.
  pose proof (groups_partition_rows (unique col) col s
                (fun x y Hx => category_of_row col x y Hx)) as Hperm.
  destruct (unique col) as [|a [|b [|d cats]]]; try discriminate.
  simpl in *. now rewrite app_nil_r in Hperm.
Qed.

Lemma mann_whitney_groups_partition_witness :
  Permutation
    ([Num 0.2; Num 0.3; Num 0.25] ++ [Num 0.6; Num 0.55; Num 0.58])
    (observed [Str "A"; Str "A"; Str "A"; Str "B"; Str "B"; Str "B"]
              [Num 0.2; Num 0.3; Num 0.25; Num 0.6; Num 0.55; Num 0.58]).
Proof.
  apply (mann_whitney_groups_partition example_df "region" "NDVI");
    reflexivity.
Defined.

(** ** The tables the rank tests return *)

Lemma NoDup_pairs (cats nums : list string) :
  NoDup cats -> NoDup nums -> NoDup (pairs cats nums).
Proof.
  intros Hc Hn. induction Hc as [|c cats Hnin Hc IH]; [constructor|].
  change (pairs (c :: cats) nums) with (map (pair c) nums ++ pairs cats nums).
  apply NoDup_app.
  - clear -Hn. induction Hn as [|v nums Hv Hn IHn]; simpl; constructor; auto.
    intros Hin. apply in_map_iff in Hin. destruct Hin as (v0 & Heq & Hv0).
    inversion Heq; subst. contradiction.
  - exact IH.
  - intros [c' v'] Hin Hin'. apply in_map_iff in Hin.
    destruct Hin as (v0 & Heq & _). inversion Heq; subst.
    apply in_pairs in Hin'. tauto.
Qed.

(** X3.  Whenever [mann_whitney_test] returns, its table has exactly one row
    for each distinct supplied pair, in the order of the two loops (the pairs
    themselves when the caller repeats no field); every supplied categorical
    field has exactly two distinct values, and the row of a pair holds the
    statistic and the p-value [mannwhitneyu] returned for it: no row is
    filled with NaN by the default of [.get(variable, {})]. *)
Theorem mann_whitney_table_rows :
  forall mannwhitneyu df cats nums s,
    run (mann_whitney_test mannwhitneyu cats nums) df = Ok s ->
    index (styler_data s) = distinct (pairs cats nums) /\
    NoDup (index (styler_data s)) /\
    (NoDup cats -> NoDup nums -> index (styler_data s) = pairs cats nums) /\
    (forall c v, In c cats -> In v nums ->
       nunique df c = Some 2 /\
       exists u p,
         mw_computed mannwhitneyu df c v [("U-statistic", u); ("p-value", p)] /\
         Table_row (styler_data s) (c, v) = Some [u; p]).
Proof.
  intros mannwhitneyu df cats nums s Hrun.
  destruct (mann_whitney_test_rows mannwhitneyu df cats nums s Hrun) as [Hidx Hrows].
  split; [exact Hidx|]. split; [rewrite Hidx; apply distinct_NoDup|].
  split; [|exact Hrows].
  intros Hc Hn. rewrite Hidx. apply distinct_NoDup_id. now apply NoDup_pairs.
Qed.

Lemma mann_whitney_table_rows_witness :
  exists s,
    run (mann_whitney_test example_mannwhitneyu ["region"] ["NDVI"; "temperature"])
      example_df = Ok s /\
    index (styler_data s) = [("region", "NDVI"); ("region", "temperature")] /\
    Table_row (styler_data s) ("region", "temperature") = Some [0; 0.1]%float.
Proof.
  eexists. split; [reflexivity|].
  destruct (mann_whitney_table_rows example_mannwhitneyu example_df
              ["region"] ["NDVI"; "temperature"] _ eq_refl)
    as (_ & _ & Hidx & _).
  split; [|reflexivity].
  apply Hidx; repeat constructor; simpl; intuition discriminate.
Defined.

(** X4.  For supplied fields that are columns of the frame, a non-empty list
    of numerical fields and a scipy that returns on the groups it is passed,
    [mann_whitney_test] returns a table if and only if every supplied
    categorical field has exactly two distinct values. *)
Theorem mann_whitney_test_returns_iff_all_binary :
  forall mannwhitneyu df cats nums,
    (forall c, In c cats -> dict_get c df <> None) ->
    (forall v, In v nums -> dict_get v df <> None) ->
    (forall c v col g1 g2,
       In c cats -> In v nums ->
       dict_get c df = Some col -> length (unique col) = 2 ->
       run (group c (nth 0 (unique col) (Num nan)) v) df = Ok g1 ->
       run (group c (nth 1 (unique col) (Num nan)) v) df = Ok g2 ->
       exists u p, mannwhitneyu g1 g2 two_sided = Stat u p) ->
    nums <> [] ->
    ((exists s, run (mann_whitney_test mannwhitneyu cats nums) df = Ok s) <->
     (forall c, In c cats -> nunique df c = Some 2)).
Proof.
  intros mannwhitneyu df cats nums Hcats Hnums Hstat Hne. split.
  - intros [s Hrun] c Hc.
    destruct nums as [|v nums]; [congruence|].
    destruct (mann_whitney_test_rows mannwhitneyu df cats (v :: nums) s Hrun)
      as [_ Hrows].
    apply (Hrows c v Hc). now left.
  - intros Hall.
    destruct (mann_whitney_results_returns mannwhitneyu df cats nums Hcats Hnums Hstat)
      as [results Hres].
    pose proof (mann_whitney_results_inv mannwhitneyu df cats nums results Hres) as Hinv.
    destruct (result_items_returns results df cats nums) as [items Hitems].
    + intros c Hc. destruct nums as [|v nums]; [congruence|].
      destruct (results_inv_has_key _ _ _ _ c v Hinv) as [inner Hinner].
      * apply in_pairs. simpl; auto.
      * now apply Hall.
      * congruence.
    + eexists. rewrite run_mann_whitney_test, Hres, Hitems. reflexivity.
Qed.

Lemma mann_whitney_test_returns_iff_all_binary_witness :
  (exists s,
     run (mann_whitney_test example_mannwhitneyu ["region"; "site"] ["NDVI"])
       example_df = Ok s) <->
  (forall c, In c ["region"; "site"] -> nunique example_df c = Some 2).
Proof.
  apply (mann_whitney_test_returns_iff_all_binary example_mannwhitneyu example_df
           ["region"; "site"] ["NDVI"]).
  - intros c [<-|[<-|[]]]; vm_compute; discriminate.
  - intros v [<-|[]]; vm_compute; discriminate.
  - intros c v col g1 g2 [<-|[<-|[]]] [<-|[]] Hcol Hlen Hg1 Hg2;
      vm_compute in Hcol; inversion Hcol; subst col;
      vm_compute in Hlen; try discriminate;
      vm_compute in Hg1, Hg2; inversion Hg1; inversion Hg2; subst;
      do 2 eexists; reflexivity.
  - discriminate.
Defined.

(** X5.  For supplied fields that are columns of the frame, non-empty lists
    and a scipy that returns on the groups it is passed, when every supplied
    categorical field has three distinct values or more
    [kruskal_wallis_test] returns a styled table with exactly one row for
    each distinct supplied pair, in the order of the two loops, holding the
    statistic and the p-value [kruskal] returned for the pair. *)
Theorem kruskal_wallis_test_full_table :
  forall kruskal df cats nums,
    (forall c, In c cats -> dict_get c df <> None) ->
    (forall v, In v nums -> dict_get v df <> None) ->
    (forall c v col gs,
       In c cats -> In v nums ->
       dict_get c df = Some col -> 3 <= length (unique col) ->
       run (groups_of c (unique col) v) df = Ok gs ->
       exists h p, kruskal gs = Stat h p) ->
    cats <> [] -> nums <> [] ->
    (forall c, In c cats -> at_least_three df c) ->
    exists s,
      run (kruskal_wallis_test kruskal cats nums) df = Ok (Styled s) /\
      index (styler_data s) = distinct (pairs cats nums) /\
      NoDup (index (styler_data s)) /\
      (NoDup cats -> NoDup nums -> index (styler_data s) = pairs cats nums) /\
      (forall c v, In c cats -> In v nums ->
         exists h p,
           kw_computed kruskal df c v [("H-statistic", h); ("p-value", p)] /\
           Table_row (styler_data s) (c, v) = Some [h; p]).
Proof.
  intros kruskal df cats nums Hcats Hnums Hstat Hc0 Hv0 Hall.
  destruct (kruskal_wallis_test_returns_styled kruskal df cats nums
              Hcats Hnums Hstat Hc0 Hv0 Hall) as [s Hrun].
  exists s. split; [exact Hrun|].
  destruct (kruskal_wallis_test_rows kruskal df cats nums _ Hrun)
    as [Habs|[Hidx Hrows]]; [discriminate|]. simpl in Hidx, Hrows.
  split; [exact Hidx|]. split; [rewrite Hidx; apply distinct_NoDup|].
  split.
  - intros Hnc Hnn. rewrite Hidx. apply distinct_NoDup_id. now apply NoDup_pairs.
  - intros c v Hc Hv. now destruct (Hrows c v Hc Hv).
Qed.

Lemma kruskal_wallis_test_full_table_witness :
  exists s,
    run (kruskal_wallis_test example_kruskal ["season"] ["NDVI"; "temperature"])
      example_df = Ok (Styled s) /\
    index (styler_data s) = distinct (pairs ["season"] ["NDVI"; "temperature"]) /\
    NoDup (index (styler_data s)) /\
    (NoDup ["season"] -> NoDup ["NDVI"; "temperature"] ->
     index (styler_data s) = pairs ["season"] ["NDVI"; "temperature"]) /\
    (forall c v, In c ["season"] -> In v ["NDVI"; "temperature"] ->
       exists h p,
         kw_computed example_kruskal example_df c v
           [("H-statistic", h); ("p-value", p)] /\
         Table_row (styler_data s) (c, v) = Some [h; p]).
Proof.
  apply (kruskal_wallis_test_full_table example_kruskal example_df
           ["season"] ["NDVI"; "temperature"]).
  - intros c [<-|[]]; vm_compute; discriminate.
  - intros v [<-|[<-|[]]]; vm_compute; discriminate.
  - intros c v col gs [<-|[]] [<-|[<-|[]]] Hcol Hlen Hgs;
      vm_compute in Hcol; inversion Hcol; subst col;
      vm_compute in Hgs; inversion Hgs; subst;
      do 2 eexists; reflexivity.
  - discriminate.
  - discriminate.
  - intros c [<-|[]]. exists 4. split; [reflexivity | lia].
Defined.

(** X6.  For supplied categorical fields that are columns of the frame,
    [kruskal_wallis_test] returns the empty frame, unstyled, when the list of
    numerical fields is empty or no supplied categorical field has three
    distinct values: the numerical fields are then not looked up, and scipy
    is not called. *)
Theorem kruskal_wallis_test_empty_frame :
  forall kruskal df cats nums,
    (forall c, In c cats -> dict_get c df <> None) ->
    nums = [] \/ (forall c, In c cats -> ~ at_least_three df c) ->
    run (kruskal_wallis_test kruskal cats nums) df = Ok (Unstyled empty_frame).
Proof.
  intros kruskal df cats nums Hcats Hcase.
  rewrite run_kruskal_wallis_test.
  assert (run (kruskal_wallis_results kruskal cats nums) df = Ok []) as ->; auto.
  unfold kruskal_wallis_results.
  induction cats as [|c cats IH]; auto.
  rewrite run_for_cons by apply readonly_kruskal_field.
  rewrite run_kruskal_field.
  destruct (dict_get c df) as [col|] eqn:Ec; [|exfalso; apply (Hcats c); simpl; auto].
  assert (nums <> [] -> length (unique col) < 3) as Hlt.
  { intros Hne. destruct Hcase as [->|Hno]; [congruence|].
    destruct (Nat.lt_ge_cases (length (unique col)) 3) as [Hlt|Hge]; auto.
    exfalso. apply (Hno c); [now left|].
    exists (length (unique col)). unfold nunique. now rewrite Ec. }
  assert (forall c', In c' cats -> dict_get c' df <> None) as Hcats'
    by (intros c' Hc'; apply Hcats; now right).
  assert (nums = [] \/ (forall c', In c' cats -> ~ at_least_three df c')) as Hcase'.
  { destruct Hcase as [->|Hno]; auto. right. intros c' Hc'. apply Hno. now right. }
  destruct (Nat.leb_spec 3 (length (unique col))) as [Hlen|Hlen].
  - destruct nums as [|v nums]; [|specialize (Hlt ltac:(discriminate)); lia].
    simpl. now apply IH.
  - now apply IH.
Qed.

Lemma kruskal_wallis_test_empty_frame_witness :
  run (kruskal_wallis_test example_kruskal ["region"; "site"] ["NDVI"; "absent"])
    example_df = Ok (Unstyled empty_frame) /\
  run (kruskal_wallis_test example_kruskal ["season"; "plot"] []) example_df
  = Ok (Unstyled empty_frame).
Proof.
  split.
  - apply kruskal_wallis_test_empty_frame.
    + intros c [<-|[<-|[]]]; vm_compute; discriminate.
    + right. intros c [<-|[<-|[]]] (n & Hn & Hge); vm_compute in Hn;
        inversion Hn; subst; lia.
  - apply kruskal_wallis_test_empty_frame.
    + intros c [<-|[<-|[]]]; vm_compute; discriminate.
    + now left.
Defined.

(** ** Empty lists and missing columns *)

Lemma mann_whitney_results_no_numerical mannwhitneyu df cats :
  run (mann_whitney_results mannwhitneyu cats []) df = Ok [].
Proof.
  unfold mann_whitney_results. induction cats as [|c cats IH]; auto.
Qed.

Lemma result_items_no_numerical results df cats :
  run (result_items results cats []) df = Ok [].
Proof.
  unfold result_items. induction cats as [|c cats IH]; auto.
Qed.

(** X7.  With an empty list of numerical fields, or of categorical fields,
    [mann_whitney_test] returns the styler of the empty frame whatever the
    frame and the other list are: no column is looked up, so a field that is
    not in the frame raises nothing.  So does [anova] with an empty list of
    numerical fields, whatever its categorical field. *)
Theorem empty_lists_give_empty_styler :
  forall mannwhitneyu f_oneway df,
    (forall cats,
       run (mann_whitney_test mannwhitneyu cats []) df
       = Ok (style_map empty_frame highlight_significant "p-value")) /\
    (forall nums,
       run (mann_whitney_test mannwhitneyu [] nums) df
       = Ok (style_map empty_frame highlight_significant "p-value")) /\
    (forall c,
       run (anova f_oneway [] c) df
       = Ok (style_map empty_frame highlight_significant "p-value")).
Proof.
  intros mannwhitneyu f_oneway df. split; [|split].
  - intros cats.
    now rewrite run_mann_whitney_test, mann_whitney_results_no_numerical,
      result_items_no_numerical.
  - intros nums. reflexivity.
  - intros c. reflexivity.
Qed.

(** A loop raises when its body raises on one of the elements, whatever the
    local variables are by then. *)
Lemma for_raises {A S : Type} (body : A -> S -> M S) df (l : list A) (x : A) :
  (forall y s, readonly (body y s)) ->
  In x l ->
  (forall s, exists e, run (body x s) df = Raise e) ->
  forall s, exists e, run (for_ l body s) df = Raise e.
Proof.
  intros Hro Hin Hx. induction l as [|y l IH]; intros s; [destruct Hin|].
  rewrite run_for_cons by auto.
  destruct (run (body y s) df) as [s'|e] eqn:Ey; [|eauto].
  destruct Hin as [->|Hin]; [|now apply IH].
  destruct (Hx s) as [e He]. congruence.
Qed.

(** X8.  A supplied categorical field that is not a column of the frame
    makes [kruskal_wallis_test] raise, and makes [mann_whitney_test] raise as
    soon as the list of numerical fields is not empty; unless scipy raised on
    an earlier pair, the exception is a [KeyError]. *)
Theorem missing_categorical_field_raises :
  forall mannwhitneyu kruskal df cats nums c,
    In c cats -> dict_get c df = None ->
    (exists e,
       run (kruskal_wallis_test kruskal cats nums) df = Raise e /\
       ((exists key, e = KeyError key) \/
        (exists msg, e = ScipyError msg /\
           run (kruskal_wallis_results kruskal cats nums) df = Raise e))) /\
    (nums <> [] ->
     exists e,
       run (mann_whitney_test mannwhitneyu cats nums) df = Raise e /\
       ((exists key, e = KeyError key) \/
        (exists msg, e = ScipyError msg /\
           run (mann_whitney_results mannwhitneyu cats nums) df = Raise e))).
Proof.
  intros mannwhitneyu kruskal df cats nums c Hc Hnone. split.
  - destruct (for_raises (kruskal_field kruskal nums) df cats c) with (s := @nil (string * dict string row))
      as [e He]; auto.
    + intros; apply readonly_kruskal_field.
    + intros s. rewrite run_kruskal_field, Hnone. eauto.
    + exists e. rewrite run_kruskal_wallis_test.
      unfold kruskal_wallis_results. rewrite He. split; auto.
      destruct e as [key|msg]; eauto.
  - intros Hnums.
    destruct (for_raises
                (fun cat_var results =>
                   for_ nums (mann_whitney_body mannwhitneyu cat_var) results)
                df cats c) with (s := @nil (string * dict string row))
      as [e He]; auto.
    + intros; apply readonly_for; intros; apply readonly_mann_whitney_body.
    + intros s. destruct nums as [|v nums]; [congruence|].
      rewrite run_for_cons by apply readonly_mann_whitney_body.
      unfold mann_whitney_body at 1.
      rewrite run_bind, run_df_getitem by auto with readonly.
      unfold getitem. rewrite Hnone. eauto.
    + exists e. rewrite run_mann_whitney_test.
      unfold mann_whitney_results. rewrite He. split; auto.
      destruct e as [key|msg]; eauto.
Qed.

Lemma missing_categorical_field_raises_witness :
  (exists e,
     run (kruskal_wallis_test example_kruskal ["season"; "absent"] ["NDVI"]) example_df
     = Raise e /\
     ((exists key, e = KeyError key) \/
      (exists msg, e = ScipyError msg /\
         run (kruskal_wallis_results example_kruskal ["season"; "absent"] ["NDVI"])
           example_df = Raise e))) /\
  (["NDVI"] <> [] ->
   exists e,
     run (mann_whitney_test example_mannwhitneyu ["season"; "absent"] ["NDVI"])
       example_df = Raise e /\
     ((exists key, e = KeyError key) \/
      (exists msg, e = ScipyError msg /\
         run (mann_whitney_results example_mannwhitneyu ["season"; "absent"] ["NDVI"])
           example_df = Raise e))).
Proof.
  apply (missing_categorical_field_raises example_mannwhitneyu example_kruskal
           example_df ["season"; "absent"] ["NDVI"] "absent").
  - simpl; auto.
  - reflexivity.
Defined.

(** X9.  [anova] with a categorical field that is not a column of the frame
    raises [KeyError] on that field as soon as there is a numerical field;
    with a categorical column that has at least one row and a first numerical
    field that is not a column, it raises [KeyError] on the numerical
    field. *)
Theorem anova_missing_column_KeyError :
  forall f_oneway df c v nums,
    (dict_get c df = None ->
     run (anova f_oneway (v :: nums) c) df = Raise (KeyError c)) /\
    (forall col x,
       dict_get c df = Some (x :: col) -> dict_get v df = None ->
       run (anova f_oneway (v :: nums) c) df = Raise (KeyError v)).
Proof.
  intros f_oneway df c v nums. split.
  - intros Hc. rewrite run_anova. unfold anova_results.
    rewrite run_for_cons by apply readonly_anova_body.
    now rewrite run_anova_body, Hc.
  - intros col x Hc Hv. rewrite run_anova. unfold anova_results.
    rewrite run_for_cons by apply readonly_anova_body.
    rewrite run_anova_body, Hc.
    assert (exists cat cats, unique (x :: col) = cat :: cats) as (cat & cats & ->).
    { destruct (unique (x :: col)) as [|cat cats] eqn:E; [|eauto].
      destruct (unique_covers (x :: col) x) as (y & Hy & _); [now left|].
      rewrite E in Hy. destruct Hy. }
    unfold groups_of. simpl.
    rewrite run_bind by auto with readonly.
    now rewrite run_group, Hc, Hv.
Qed.

Lemma anova_missing_column_KeyError_witness :
  (dict_get "absent" example_df = None ->
   run (anova example_f_oneway ["NDVI"; "temperature"] "absent") example_df
   = Raise (KeyError "absent")) /\
  run (anova example_f_oneway ["absent"; "NDVI"] "season") example_df
  = Raise (KeyError "absent").
Proof.
  split.
  - apply (proj1 (anova_missing_column_KeyError example_f_oneway example_df
                    "absent" "NDVI" ["temperature"])).
  - apply (proj2 (anova_missing_column_KeyError example_f_oneway example_df
                    "season" "absent" ["NDVI"])
             [Str "spring"; Str "summer"; Str "autumn"; Str "winter"; Str "spring"]
             (Str "winter")); reflexivity.
Defined.

(** X10.  When its categorical field and its numerical fields are columns of
    the frame, [anova] raises no exception of its own: it returns a table, or
    it raises what [f_oneway] raised on the groups of one of the numerical
    fields. *)
Theorem anova_raises_only_what_scipy_raises :
  forall f_oneway df nums c col,
    dict_get c df = Some col ->
    (forall v, In v nums -> dict_get v df <> None) ->
    (exists s, run (anova f_oneway nums c) df = Ok s) \/
    (exists v gs msg,
       In v nums /\
       run (groups_of c (unique col) v) df = Ok gs /\
       f_oneway gs = Fails msg /\
       run (anova f_oneway nums c) df = Raise (ScipyError msg)).
Proof.
  intros f_oneway df nums c col Hc Hnums.
  destruct (anova_results_outcome f_oneway df c nums col Hc Hnums)
    as [(r & Hrun & _)|(v & gs & msg & Hv & Hgs & Hs & Hrun)].
  - left. eexists. rewrite run_anova, Hrun. reflexivity.
  - right. exists v, gs, msg. repeat (split; auto).
    now rewrite run_anova, Hrun.
Qed.

Lemma anova_raises_only_what_scipy_raises_witness :
  (exists s, run (anova example_f_oneway ["NDVI"; "temperature"] "plot") example_df = Ok s) \/
  (exists v gs msg,
     In v ["NDVI"; "temperature"] /\
     run (groups_of "plot"
            (unique [Str "p"; Str "q"; Num nan; Str "p"; Str "q"; Num nan]) v)
       example_df = Ok gs /\
     example_f_oneway gs = Fails msg /\
     run (anova example_f_oneway ["NDVI"; "temperature"] "plot") example_df
     = Raise (ScipyError msg)).
Proof.
  apply (anova_raises_only_what_scipy_raises example_f_oneway example_df
           ["NDVI"; "temperature"] "plot").
  - reflexivity.
  - intros v [<-|[<-|[]]]; vm_compute; discriminate.
Defined.

(** ** A row depends on its pair only *)

Lemma mw_computed_functional mannwhitneyu df c v e e' :
  mw_computed mannwhitneyu df c v e -> mw_computed mannwhitneyu df c v e' -> e = e'.
Proof.
  intros (col & g1 & g2 & u & p & Hc & _ & Hg1 & Hg2 & Hs & ->)
         (col' & g1' & g2' & u' & p' & Hc' & _ & Hg1' & Hg2' & Hs' & ->).
  rewrite Hc in Hc'. inversion Hc'; subst col'.
  rewrite Hg1 in Hg1'. inversion Hg1'; subst g1'.
  rewrite Hg2 in Hg2'. inversion Hg2'; subst g2'.
  rewrite Hs in Hs'. now inversion Hs'.
Qed.

Lemma kw_computed_functional kruskal df c v e e' :
  kw_computed kruskal df c v e -> kw_computed kruskal df c v e' -> e = e'.
Proof.
  intros (col & gs & h & p & Hc & _ & Hgs & Hs & ->)
         (col' & gs' & h' & p' & Hc' & _ & Hgs' & Hs' & ->).
  rewrite Hc in Hc'. inversion Hc'; subst col'.
  rewrite Hgs in Hgs'. inversion Hgs'; subst gs'.
  rewrite Hs in Hs'. now inversion Hs'.
Qed.

Lemma run_group_column (c : string) (cat : value) (v : string) df g :
  run (group c cat v) df = Ok g -> dict_get v df <> None.
Proof.
  rewrite run_group. destruct (dict_get c df); [|discriminate].
  destruct (dict_get v df); [congruence | discriminate].
Qed.

Lemma mann_whitney_test_returns_single mannwhitneyu df c v col g1 g2 u p :
  dict_get c df = Some col -> length (unique col) = 2 ->
  run (group c (nth 0 (unique col) (Num nan)) v) df = Ok g1 ->
  run (group c (nth 1 (unique col) (Num nan)) v) df = Ok g2 ->
  mannwhitneyu g1 g2 two_sided = Stat u p ->
  exists s1, run (mann_whitney_test mannwhitneyu [c] [v]) df = Ok s1.
Proof.
  intros Hcol Hlen Hg1 Hg2 Hs.
  destruct (mann_whitney_results_returns mannwhitneyu df [c] [v]) as [results Hres].
  - intros c' [<-|[]]. congruence.
  - intros v' [<-|[]]. eapply run_group_column; eauto.
  - intros c' v' col' g1' g2' [<-|[]] [<-|[]] Hcol' _ Hg1' Hg2'.
    rewrite Hcol in Hcol'. inversion Hcol'; subst col'.
    rewrite Hg1 in Hg1'. rewrite Hg2 in Hg2'. inversion Hg1'; inversion Hg2'; subst.
    eauto.
  - pose proof (mann_whitney_results_inv mannwhitneyu df [c] [v] results Hres) as Hinv.
    destruct (result_items_returns results df [c] [v]) as [items Hitems].
    + intros c' [<-|[]].
      destruct (results_inv_has_key _ _ _ _ c v Hinv) as [inner Hinner];
        [simpl; auto | unfold binary, nunique; now rewrite Hcol, Hlen | congruence].
    + eexists. rewrite run_mann_whitney_test, Hres, Hitems. reflexivity.
Qed.

(** X11.  The row [mann_whitney_test] returns for a pair does not depend on
    the other fields of the call: whenever a call returns a table, the call
    on any one of its pairs alone returns a table too, with the same row for
    that pair. *)
Theorem mann_whitney_row_of_single_pair :
  forall mannwhitneyu df cats nums s c v,
    run (mann_whitney_test mannwhitneyu cats nums) df = Ok s ->
    In c cats -> In v nums ->
    exists s1 r,
      run (mann_whitney_test mannwhitneyu [c] [v]) df = Ok s1 /\
      index (styler_data s1) = [(c, v)] /\
      Table_row (styler_data s1) (c, v) = Some r /\
      Table_row (styler_data s) (c, v) = Some r.
Proof.
  intros mannwhitneyu df cats nums s c v Hrun Hc Hv.
  destruct (mann_whitney_test_rows mannwhitneyu df cats nums s Hrun) as [_ Hrows].
  destruct (Hrows c v Hc Hv) as (Hbin & u & p & Hcomp & Hrow).
  pose proof Hcomp as (col & g1 & g2 & u0 & p0 & Hcol & Hlen & Hg1 & Hg2 & Hs & He).
  inversion He; subst u0 p0.
  assert (exists s1, run (mann_whitney_test mannwhitneyu [c] [v]) df = Ok s1)
    as [s1 Hrun1].
  { apply (mann_whitney_test_returns_single mannwhitneyu df c v col g1 g2 u p); auto. }
  destruct (mann_whitney_test_rows mannwhitneyu df [c] [v] s1 Hrun1) as [Hidx1 Hrows1].
  destruct (Hrows1 c v) as (_ & u1 & p1 & Hcomp1 & Hrow1); simpl; auto.
  pose proof (mw_computed_functional _ _ _ _ _ _ Hcomp Hcomp1) as Heq.
  inversion Heq; subst u1 p1.
  exists s1, [u; p]. auto.
Qed.

Lemma mann_whitney_row_of_single_pair_witness :
  exists s1 r,
    run (mann_whitney_test example_mannwhitneyu ["region"] ["temperature"]) example_df
    = Ok s1 /\
    index (styler_data s1) = [("region", "temperature")] /\
    Table_row (styler_data s1) ("region", "temperature") = Some r /\
    Table_row
      (DataFrame_T
         [(("region", "NDVI"), [("U-statistic", 0%float); ("p-value", 0.1%float)]);
          (("region", "temperature"),
           [("U-statistic", 0%float); ("p-value", 0.1%float)])])
      ("region", "temperature") = Some r.
Proof.
  apply (mann_whitney_row_of_single_pair example_mannwhitneyu example_df
           ["region"] ["NDVI"; "temperature"]
           (style_map
              (DataFrame_T
                 [(("region", "NDVI"),
                   [("U-statistic", 0%float); ("p-value", 0.1%float)]);
                  (("region", "temperature"),
                   [("U-statistic", 0%float); ("p-value", 0.1%float)])])
              highlight_significant "p-value")).
  - reflexivity.
  - simpl; auto.
  - simpl; auto.
Defined.

(** X12.  The row [kruskal_wallis_test] returns for a pair does not depend on
    the other fields of the call: whenever a call returns a styled table, the
    call on any one of its pairs alone returns one too, with the same row for
    that pair. *)
Theorem kruskal_wallis_row_of_single_pair :
  forall kruskal df cats nums s c v,
    run (kruskal_wallis_test kruskal cats nums) df = Ok (Styled s) ->
    In c cats -> In v nums ->
    exists s1 r,
      run (kruskal_wallis_test kruskal [c] [v]) df = Ok (Styled s1) /\
      index (styler_data s1) = [(c, v)] /\
      Table_row (styler_data s1) (c, v) = Some r /\
      Table_row (styler_data s) (c, v) = Some r.
Proof.
  intros kruskal df cats nums s c v Hrun Hc Hv.
  destruct (kruskal_wallis_test_rows kruskal df cats nums _ Hrun)
    as [Habs|[_ Hrows]]; [discriminate|]. simpl in Hrows.
  destruct (Hrows c v Hc Hv) as (Happ & h & p & Hcomp & Hrow).
  pose proof Hcomp as (col & gs & h0 & p0 & Hcol & Hlen & Hgs & Hs & He).
  inversion He; subst h0 p0.
  destruct (kruskal_wallis_test_returns_styled kruskal df [c] [v])
    as (s1 & Hrun1).
  - intros c' [<-|[]]. congruence.
  - intros v' [<-|[]].
    destruct (dict_get v df) as [sv|] eqn:Ev; [discriminate|].
    exfalso. revert Hgs. unfold groups_of.
    destruct (unique col) as [|cat cats']; [simpl in Hlen; lia|]. simpl.
    rewrite run_bind by auto with readonly.
    now rewrite run_group, Hcol, Ev.
  - intros c' v' col' gs' [<-|[]] [<-|[]] Hcol' _ Hgs'.
    rewrite Hcol in Hcol'. inversion Hcol'; subst col'.
    rewrite Hgs in Hgs'. inversion Hgs'; subst gs'. eauto.
  - discriminate.
  - discriminate.
  - intros c' [<-|[]]. exact Happ.
  - destruct (kruskal_wallis_test_rows kruskal df [c] [v] _ Hrun1)
      as [Habs|[Hidx1 Hrows1]]; [discriminate|]. simpl in Hidx1, Hrows1.
    destruct (Hrows1 c v) as (_ & h1 & p1 & Hcomp1 & Hrow1); simpl; auto.
    pose proof (kw_computed_functional _ _ _ _ _ _ Hcomp Hcomp1) as Heq.
    inversion Heq; subst h1 p1.
    exists s1, [h; p]. auto.
Qed.

Lemma kruskal_wallis_row_of_single_pair_witness :
  exists s1 r,
    run (kruskal_wallis_test example_kruskal ["season"] ["temperature"]) example_df
    = Ok (Styled s1) /\
    index (styler_data s1) = [("season", "temperature")] /\
    Table_row (styler_data s1) ("season", "temperature") = Some r /\
    Table_row
      (DataFrame_T
         [(("season", "NDVI"), [("H-statistic", 4.5%float); ("p-value", 0.21%float)]);
          (("season", "temperature"),
           [("H-statistic", 4.5%float); ("p-value", 0.21%float)])])
      ("season", "temperature") = Some r.
Proof.
  apply (kruskal_wallis_row_of_single_pair example_kruskal example_df
           ["season"] ["NDVI"; "temperature"]
           (style_map
              (DataFrame_T
                 [(("season", "NDVI"),
                   [("H-statistic", 4.5%float); ("p-value", 0.21%float)]);
                  (("season", "temperature"),
                   [("H-statistic", 4.5%float); ("p-value", 0.21%float)])])
              highlight_significant "p-value")).
  - reflexivity.
  - simpl; auto.
  - simpl; auto.
Defined.

(** ** Rendering the styler *)

Lemma css_when_column {L : Type} (s : Styler L) :
  In (styler_subset s) (columns (styler_data s)) ->
  css s = Ok (map (css_row (styler_func s) (styler_subset s)
                     (columns (styler_data s)))
                (data (styler_data s))).
Proof.
  intros Hin. unfold css. cbv zeta.
  assert (existsb (String.eqb (styler_subset s)) (columns (styler_data s)) = true) as ->;
    auto.
  change (existsb (key_eqb (styler_subset s)) (columns (styler_data s)) = true).
  now apply existsb_key_In.
Qed.

Lemma css_when_no_column {L : Type} (s : Styler L) :
  ~ In (styler_subset s) (columns (styler_data s)) ->
  css s = Raise (KeyError (none_in_columns (styler_subset s))).
Proof.
  intros Hnin. unfold css. cbv zeta.
  destruct (existsb (String.eqb (styler_subset s)) (columns (styler_data s))) eqn:E;
    auto.
  exfalso. apply Hnin.
  change (existsb (key_eqb (styler_subset s)) (columns (styler_data s)) = true) in E.
  now apply existsb_key_In.
Qed.

Lemma DataFrame_T_data_length {L : Type} (d : dict L row) :
  length (data (DataFrame_T d)) = length (index (DataFrame_T d)).
Proof. unfold DataFrame_T, dict_keys. simpl. now rewrite !length_map. Qed.

Lemma distinct_nonempty {K : Type} `{EqKey K} (l : list K) :
  l <> [] -> distinct l <> [].
Proof.
  destruct l as [|k l]; [congruence|]. intros _ Hd.
  assert (In k (distinct (k :: l))) as Hin by (apply distinct_In; now left).
  rewrite Hd in Hin. destruct Hin.
Qed.

(** The columns of the table of a rank test that has a row. *)
Lemma rank_table_columns applies computed (stat : string) results df cats nums items :
  (forall c v e, computed c v e -> applies c) ->
  (forall c v e, computed c v e -> dict_keys e = [stat; "p-value"]) ->
  stat <> "p-value" ->
  results_inv applies computed (pairs cats nums) results ->
  run (result_items results cats nums) df = Ok items ->
  pairs cats nums <> [] ->
  columns (DataFrame_T items) = [stat; "p-value"] /\
  index (DataFrame_T items) <> [].
Proof.
  intros Happ Hshape Hne Hinv Hitems Hpairs.
  destruct (result_items_rows applies computed Happ _ _ _ _ _ Hinv Hitems)
    as (Hkeys & _ & Hall).
  assert (items <> []) as Hitems_ne.
  { intros ->. simpl in Hkeys. symmetry in Hkeys.
    now apply distinct_nonempty in Hkeys. }
  split.
  - apply DataFrame_T_columns; auto.
    + constructor; [simpl; intuition congruence|].
      constructor; [tauto | constructor].
    + intros k e Hin. apply Hall in Hin. eapply Hshape; eauto.
  - rewrite DataFrame_T_index, Hkeys. now apply distinct_nonempty.
Qed.

(** X13.  A styled table returned by [kruskal_wallis_test] can always be
    rendered: it has at least one row and the column [p-value] the styling
    selects, so computing the styles raises nothing and gives one list of
    styles for each row. *)
Theorem kruskal_wallis_styler_renders :
  forall kruskal df cats nums s,
    run (kruskal_wallis_test kruskal cats nums) df = Ok (Styled s) ->
    index (styler_data s) <> [] /\
    columns (styler_data s) = ["H-statistic"; "p-value"] /\
    exists grid,
      css s = Ok grid /\ length grid = length (index (styler_data s)).
Proof.
  intros kruskal df cats nums s. rewrite run_kruskal_wallis_test.
  destruct (run (kruskal_wallis_results kruskal cats nums) df)
    as [results|] eqn:Hres; [|discriminate].
  destruct results as [|kv results]; [discriminate|].
  destruct (run (result_items (kv :: results) cats nums) df) as [items|] eqn:Hitems;
    [|discriminate].
  intros Heq. inversion Heq; subst s. clear Heq.
  cbn [styler_data style_map].
  pose proof (kruskal_wallis_results_inv kruskal df cats nums _ Hres) as Hinv.
  assert (pairs cats nums <> []) as Hpairs.
  { destruct Hinv as (_ & Hin & Hsound & _). destruct kv as [c inner].
    assert (dict_get c ((c, inner) :: results) = Some inner) as Hget
      by (simpl; now rewrite String.eqb_refl).
    destruct (Hin c inner Hget) as [Hne _].
    destruct (dict_nonempty_get _ Hne) as (v & e & Hve).
    destruct (Hsound c v e) as [Hp _]; [unfold entry_of; now rewrite Hget|].
    intros Hnil. rewrite Hnil in Hp. destruct Hp. }
  destruct (rank_table_columns (at_least_three df) (kw_computed kruskal df)
              "H-statistic" (kv :: results) df cats nums items) as [Hcols Hidx]; auto.
  - apply kw_computed_at_least_three.
  - intros c v e (? & ? & ? & ? & _ & _ & _ & _ & ->). reflexivity.
  - discriminate.
  - split; [exact Hidx|]. split; [exact Hcols|].
    eexists. split.
    + apply css_when_column. cbn [styler_data styler_subset style_map].
      rewrite Hcols. simpl; auto.
    + cbn [styler_data style_map]. rewrite length_map.
      apply DataFrame_T_data_length.
Qed.

Lemma kruskal_wallis_styler_renders_witness :
  exists s,
    run (kruskal_wallis_test example_kruskal ["season"] ["NDVI"]) example_df
    = Ok (Styled s) /\
    index (styler_data s) <> [] /\
    columns (styler_data s) = ["H-statistic"; "p-value"] /\
    exists grid,
      css s = Ok grid /\ length grid = length (index (styler_data s)).
Proof.
  eexists. split; [reflexivity|].
  apply (kruskal_wallis_styler_renders example_kruskal example_df ["season"] ["NDVI"]).
  reflexivity.
Defined.

(** X14.  The styler [mann_whitney_test] returns can be rendered if and only
    if both lists of fields are non-empty: it then has the columns
    [U-statistic] and [p-value] and a list of styles for each row; with an
    empty list the frame has no column at all, and computing the styles
    raises a [KeyError]. *)
Theorem mann_whitney_styler_renders_iff_pairs :
  forall mannwhitneyu df cats nums s,
    run (mann_whitney_test mannwhitneyu cats nums) df = Ok s ->
    (cats <> [] -> nums <> [] ->
     columns (styler_data s) = ["U-statistic"; "p-value"] /\
     exists grid,
       css s = Ok grid /\ length grid = length (index (styler_data s))) /\
    (cats = [] \/ nums = [] ->
     columns (styler_data s) = [] /\
     exists msg, css s = Raise (KeyError msg)).
Proof.
  intros mannwhitneyu df cats nums s Hrun. split.
  - intros Hc Hn. rewrite run_mann_whitney_test in Hrun.
    destruct (run (mann_whitney_results mannwhitneyu cats nums) df)
      as [results|] eqn:Hres; [|discriminate].
    destruct (run (result_items results cats nums) df) as [items|] eqn:Hitems;
      [|discriminate].
    inversion Hrun; subst s. clear Hrun. cbn [styler_data style_map].
    pose proof (mann_whitney_results_inv mannwhitneyu df cats nums _ Hres) as Hinv.
    destruct (rank_table_columns (binary df) (mw_computed mannwhitneyu df)
                "U-statistic" results df cats nums items) as [Hcols Hidx]; auto.
    + apply mw_computed_binary.
    + intros c v e (? & ? & ? & ? & ? & _ & _ & _ & _ & _ & ->). reflexivity.
    + discriminate.
    + destruct cats as [|c cats]; [congruence|].
      destruct nums as [|v nums]; [congruence|]. discriminate.
    + split; [exact Hcols|]. eexists. split.
      * apply css_when_column. cbn [styler_data styler_subset style_map].
        rewrite Hcols. simpl; auto.
      * cbn [styler_data style_map]. rewrite length_map.
        apply DataFrame_T_data_length.
  - intros Hempty.
    assert (s = style_map empty_frame highlight_significant "p-value") as ->.
    { destruct Hempty as [-> | ->].
      - vm_compute in Hrun. now inversion Hrun.
      - rewrite run_mann_whitney_test, mann_whitney_results_no_numerical,
          result_items_no_numerical in Hrun. now inversion Hrun. }
    split; [reflexivity|]. eexists. apply css_when_no_column. simpl. tauto.
Qed.

Lemma mann_whitney_styler_renders_iff_pairs_witness :
  (exists s,
     run (mann_whitney_test example_mannwhitneyu ["region"] ["NDVI"]) example_df
     = Ok s /\
     columns (styler_data s) = ["U-statistic"; "p-value"] /\
     exists grid,
       css s = Ok grid /\ length grid = length (index (styler_data s))) /\
  (exists s,
     run (mann_whitney_test example_mannwhitneyu ["region"] []) example_df = Ok s /\
     columns (styler_data s) = [] /\
     exists msg, css s = Raise (KeyError msg)).
Proof.
  split.
  - eexists. split; [reflexivity|].
    apply (mann_whitney_styler_renders_iff_pairs example_mannwhitneyu example_df
             ["region"] ["NDVI"] _ eq_refl); discriminate.
  - eexists. split; [reflexivity|].
    apply (mann_whitney_styler_renders_iff_pairs example_mannwhitneyu example_df
             ["region"] [] _ eq_refl). now right.
Defined.

(** ** Missing labels and empty groups *)

(** X15.  In a frame whose columns have one length, a group that
    [kruskal_wallis_test] or [anova] passes to scipy is empty exactly when
    the categorical column has a missing label: [unique()] makes the missing
    label a category, and [==] selects no row for it. *)
Theorem empty_group_iff_missing_label :
  forall df c v col s gs,
    dict_get c df = Some col -> dict_get v df = Some s ->
    length s = length col ->
    run (groups_of c (unique col) v) df = Ok gs ->
    (In [] gs <-> exists x, In x col /\ labelled x = false).
Proof.
  intros df c v col s gs Hc Hv Hlen Hgs. split.
  - intros Hempty.
    destruct (existsb (fun x => negb (labelled x)) col) eqn:E.
    + apply existsb_exists in E. destruct E as (x & Hx & Hl).
      exists x. split; auto. now apply negb_true_iff.
    + exfalso. revert Hempty.
      apply (groups_of_nonempty c v df col s gs Hc Hv Hlen); auto.
      intros cat Hcat. destruct (labelled cat) eqn:El; auto.
      assert (existsb (fun x => negb (labelled x)) col = true); [|congruence].
      apply existsb_exists. exists cat. split; auto. now rewrite El.
  - intros (x & Hx & Hl).
    rewrite (run_groups_of c (unique col) v df col s Hc Hv) in Hgs.
    inversion Hgs; subst gs.
    destruct (unique_covers col x Hx) as (y & Hy & Hk).
    apply in_map_iff. exists y. split; auto.
    apply take_eq_mask_unlabelled. eapply same_key_unlabelled; eauto.
Qed.

Lemma empty_group_iff_missing_label_witness :
  In [] [[Num 0.2; Num 0.6]; [Num 0.3; Num 0.55]; []] <->
  exists x, In x [Str "p"; Str "q"; Num nan; Str "p"; Str "q"; Num nan] /\
            labelled x = false.
Proof.
  apply (empty_group_iff_missing_label example_df "plot" "NDVI"
           [Str "p"; Str "q"; Num nan; Str "p"; Str "q"; Num nan]
           [Num 0.2; Num 0.3; Num 0.25; Num 0.6; Num 0.55; Num 0.58]);
    reflexivity.
Defined.

(** ** The threshold *)

Lemma SFleb_ltb_trans (a b c : spec_float) :
  SFleb a b = true -> SFltb b c = true -> SFltb a c = true.
Proof.
  unfold SFleb, SFltb, SFcompare.
  destruct a as [s1|s1| |s1 m1 e1], b as [s2|s2| |s2 m2 e2], c as [s3|s3| |s3 m3 e3];
    try discriminate; try reflexivity;
    try (destruct s1; try discriminate; try reflexivity);
    try (destruct s2; try discriminate; try reflexivity);
    try (destruct s3; try discriminate; try reflexivity);
    change (Pos.compare_cont Eq) with Pos.compare;
    repeat match goal with
    | |- context [Z.compare ?x ?y] => destruct (Z.compare_spec x y)
    | |- context [Pos.compare ?x ?y] => destruct (Pos.compare_spec x y)
    end; simpl; try discriminate; try reflexivity; intros; try lia; subst; try lia.
Qed.

Lemma is_nan_spec (x : float) : is_nan x = true -> Prim2SF x = S754_nan.
Proof.
  unfold is_nan. rewrite negb_true_iff, FloatAxioms.eqb_spec. intros H.
  apply not_true_iff_false in H. rewrite SFeqb_true in H.
  destruct (Prim2SF x); auto; exfalso; apply H; auto.
Qed.

(** X16.  The marking is monotone and strict at the threshold: when a value
    is marked as significant, so is every value that is less than or equal
    to it, and a value that is not below 0.05, 0.05 itself included, is not
    marked. *)
Theorem highlight_significant_monotone :
  forall p q,
    PrimFloat.leb p q = true ->
    (highlight_significant q = "background-color: yellow" ->
     highlight_significant p = "background-color: yellow") /\
    (PrimFloat.leb 0.05 p = true -> highlight_significant q = "").
Proof.
  intros p q Hpq. split.
  - rewrite !highlight_significant_yellow.
    revert Hpq. rewrite FloatAxioms.leb_spec, !FloatAxioms.ltb_spec.
    apply SFleb_ltb_trans.
  - intros Hp. unfold highlight_significant.
    destruct (PrimFloat.ltb q 0.05) eqn:E; auto. exfalso.
    assert (PrimFloat.ltb p 0.05 = true) as Hlt.
    { revert Hpq E. rewrite FloatAxioms.leb_spec, !FloatAxioms.ltb_spec.
      apply SFleb_ltb_trans. }
    assert (PrimFloat.ltb 0.05 0.05 = true) as Habs; [|vm_compute in Habs; discriminate].
    revert Hp Hlt. rewrite FloatAxioms.leb_spec, !FloatAxioms.ltb_spec.
    apply SFleb_ltb_trans.
Qed.

Lemma highlight_significant_monotone_witness :
  (highlight_significant 0.049 = "background-color: yellow" ->
   highlight_significant 0.01 = "background-color: yellow") /\
  (PrimFloat.leb 0.05 0.01 = true -> highlight_significant 0.049 = "").
Proof.
  apply (highlight_significant_monotone 0.01 0.049). reflexivity.
Defined.

(** X17.  A p-value that is NaN, as scipy returns on degenerate input, is
    never marked as significant. *)
Theorem highlight_significant_nan :
  forall val, is_nan val = true -> highlight_significant val = "".
Proof.
  intros val Hnan. unfold highlight_significant.
  rewrite FloatAxioms.ltb_spec, (is_nan_spec val Hnan). reflexivity.
Qed.

Lemma highlight_significant_nan_witness : highlight_significant nan = "".
Proof. apply (highlight_significant_nan nan). reflexivity. Defined.

(** ** Storing and repeating *)

(** X18.  Storing the entry of a pair in [results] makes it the entry of that
    pair, leaves the entry of every other pair as it was and removes no key:
    an entry once computed is not lost, and storing a pair again replaces
    its entry only. *)
Theorem store_result_lookup :
  forall (results : results_t) c v e,
    entry_of (store_result c v e results) c v = Some e /\
    (forall c' v', (c', v') <> (c, v) ->
       entry_of (store_result c v e results) c' v' = entry_of results c' v') /\
    (forall c', dict_get c' results <> None ->
       dict_get c' (store_result c v e results) <> None).
Proof.
  intros results c v e. split; [|split].
  - now rewrite entry_of_store, !String.eqb_refl.
  - intros c' v' Hne. rewrite entry_of_store.
    destruct (String.eqb_spec c c') as [->|]; auto.
    destruct (String.eqb_spec v v') as [->|]; auto. congruence.
  - intros c' Hc'. rewrite dict_get_store.
    destruct (String.eqb c c'); [discriminate | exact Hc'].
Qed.

Lemma store_result_lookup_witness :
  entry_of (store_result "region" "NDVI" [("p-value", 0.1%float)]
              (store_result "region" "NDVI" [("p-value", 0.5%float)]
                 (store_result "season" "NDVI" [("p-value", 0.2%float)] [])))
    "season" "NDVI" = Some [("p-value", 0.2%float)].
Proof.
  destruct (store_result_lookup
              (store_result "region" "NDVI" [("p-value", 0.5%float)]
                 (store_result "season" "NDVI" [("p-value", 0.2%float)] []))
              "region" "NDVI" [("p-value", 0.1%float)]) as (_ & Hother & _).
  rewrite Hother by discriminate.
  destruct (store_result_lookup
              (store_result "season" "NDVI" [("p-value", 0.2%float)] [])
              "region" "NDVI" [("p-value", 0.5%float)]) as (_ & Hother' & _).
  rewrite Hother' by discriminate.
  apply (store_result_lookup [] "season" "NDVI" [("p-value", 0.2%float)]).
Defined.

Lemma run_for_app {A S : Type} (body : A -> S -> M S) df (l1 l2 : list A) (s : S) :
  (forall x t, readonly (body x t)) ->
  run (for_ (l1 ++ l2) body s) df =
  match run (for_ l1 body s) df with
  | Ok s1 => run (for_ l2 body s1) df
  | Raise e => Raise e
  end.
Proof.
  intros Hro. revert s. induction l1 as [|x l1 IH]; intros s; auto.
  change ((x :: l1) ++ l2) with (x :: (l1 ++ l2)).
  rewrite !run_for_cons by auto.
  destruct (run (body x s) df); auto.
Qed.

Lemma dict_set_same {K V : Type} `{EqKey K} (d : dict K V) (k : K) (v : V) :
  dict_get k d = Some v -> dict_set k v d = d.
Proof.
  induction d as [|[k' v'] d IH]; simpl; [discriminate|].
  destruct (key_eqb k k').
  - intros Heq. inversion Heq. reflexivity.
  - intros Hget. f_equal. auto.
Qed.

(** Running the body of [anova] again on a field leaves [results] as it
    is. *)
Lemma anova_body_again f_oneway df c visited r v :
  anova_inv f_oneway df c visited r -> In v visited ->
  run (anova_body f_oneway c v r) df = Ok r.
Proof.
  intros [Hkeys Hval] Hv.
  assert (In v (dict_keys r)) as Hin by (rewrite Hkeys; now apply distinct_In).
  apply dict_get_In in Hin.
  destruct (dict_get v r) as [e|] eqn:Hget; [|congruence].
  destruct (Hval v e Hget) as (col & gs & f & p & Hc & Hgs & Hs & ->).
  rewrite run_anova_body, Hc, Hgs, Hs. f_equal. now apply dict_set_same.
Qed.

Lemma anova_results_distinct f_oneway df c nums :
  run (anova_results f_oneway nums c) df
  = run (anova_results f_oneway (distinct nums) c) df.
Proof.
  unfold anova_results.
  induction nums as [|v pre IH] using rev_ind; auto.
  rewrite distinct_snoc. unfold add_key.
  rewrite run_for_app by (intros; apply readonly_anova_body).
  destruct (existsb (key_eqb v) (distinct pre)) eqn:E.
  - rewrite <- IH.
    destruct (run (for_ pre (anova_body f_oneway c) []) df) as [r|e] eqn:Hpre; auto.
    rewrite run_for_cons by apply readonly_anova_body.
    rewrite (anova_body_again f_oneway df c pre r v); auto.
    + now apply anova_results_inv.
    + apply existsb_key_In in E. now apply distinct_In.
  - rewrite run_for_app by (intros; apply readonly_anova_body).
    now rewrite IH.
Qed.

(** X19.  Repeating a numerical field in the list changes nothing to what
    [anova] does: the call returns the same table, or raises the same
    exception, as the call on the list without the repetitions. *)
Theorem anova_repeated_fields :
  forall f_oneway df nums c,
    run (anova f_oneway nums c) df = run (anova f_oneway (distinct nums) c) df.
Proof.
  intros f_oneway df nums c.
  now rewrite !run_anova, anova_results_distinct.
Qed.
